(** * v8-coverage-collector: the coverage session and the snapshot reduction

    A shallow embedding of [src/index.ts].  The file holds two copies of the
    class [V8CoverageCollector]: lines 16-100 (no doc comments, the result of
    [collectCoverage] is a one-entry object keyed by the test key) and lines
    179-288 (documented, the result has the fields [testKey] and
    [coveredFiles]).  They are embedded as the modules [Undocumented] and
    [Documented].

    The class talks to two worlds that are not part of the repository:
    - the Node.js built-ins [URL], [fileURLToPath] and [path.relative], which
      are taken as interfaces ([UrlApi], [PathApi]);
    - the inspector session (the "collaborator"), which is taken as an
      arbitrary state machine answering the requests of the class.
    Concrete POSIX models of the built-ins are given further down and are used
    to evaluate the code on explicit inputs. *)

From Stdlib Require Import Ascii.
From stdpp Require Import base option list strings gmap.

(** ** JavaScript strings *)

(** [s.includes(needle)]: [needle] occurs somewhere in [s]. *)
Fixpoint includes (s needle : string) : bool :=
  String.prefix needle s
  || match s with
     | EmptyString => false
     | String _ s' => includes s' needle
     end.

(** [s.split(sep)] for a one-character separator. *)
Fixpoint split (sep : ascii) (s : string) : list string :=
  match s with
  | EmptyString => [ EmptyString ]
  | String c s' =>
      if Ascii.eqb c sep then EmptyString :: split sep s'
      else match split sep s' with
           | seg :: segs => String c seg :: segs
           | [] => [ String c EmptyString ]
           end
  end.

(** [segs.join(sep)]. *)
Definition join (sep : string) (segs : list string) : string :=
  String.concat sep segs.

(** [s.startsWith(p)]. *)
Definition startsWith (s p : string) : bool := String.prefix p s.

(** ** Exceptions and completions *)

(** A thrown JavaScript value, identified by its error code or message. *)
Definition exn : Type := string.

Inductive Result (A : Type) : Type :=
  | Ok (a : A)
  | Err (e : exn).
Arguments Ok {A} a.
Arguments Err {A} e.

#[global] Instance Result_ret : MRet Result := fun _ a => Ok a.
#[global] Instance Result_bind : MBind Result := fun _ _ f m =>
  match m with
  | Ok a => f a
  | Err e => Err e
  end.
#[global] Instance Result_fmap : FMap Result := fun _ _ f m =>
  match m with
  | Ok a => Ok (f a)
  | Err e => Err e
  end.

(** ** JavaScript values and objects *)

(** The values stored in the object literals of the class. *)
Inductive value : Type :=
  | VBool (b : bool)
  | VString (s : string)
  | VStrings (l : list string).

(** An object literal: a finite map from property names to values. *)
Abbreviation object := (gmap string value).

(** ** Data model *)

(** [functions: unknown[]]: per-function detail, never inspected. *)
Inductive unknown : Type := Unknown (repr : string).

(** [interface V8ScriptCoverage] (lines 6-10 and 150-154). *)
Record V8ScriptCoverage : Type := mkScript {
  scriptId : string;
  url : string;
  functions : list unknown;
}.

(** ** The Node.js built-ins used by the class *)

(** What the class reads of a parsed [URL] object. *)
Record URL : Type := mkURL {
  protocol : string;
  hostname : string;
  pathname : string;
}.

(** [node:url].  [URL_parse s] is [Some u] when [URL.canParse(s)] holds, and
    then [new URL(s)] is [u]; it is [None] when [new URL(s)] throws.
    [fileURLToPath] throws on some inputs, hence the [Result]. *)
Class UrlApi : Type := {
  URL_parse : string -> option URL;
  fileURLToPath : string -> Result string;
}.

Definition URL_canParse `{UrlApi} (s : string) : bool :=
  bool_decide (is_Some (URL_parse s)).

(** [node:path].  [relative from to]. *)
Class PathApi : Type := {
  relative : string -> string -> string;
}.

(** ** The inspector session *)

(** The requests the class sends: [session.connect()], [session.disconnect()]
    and [session.post(method, params)]. *)
Inductive Request : Type :=
  | SessionConnect
  | SessionDisconnect
  | Post (method : string) (params : option object).

(** The answer to a request.  [post] resolves with an [unknown] value; the only
    thing the class ever reads of it is the field [result], through the cast
    [as { result: V8ScriptCoverage[] }] of [takePreciseCoverage], which is
    taken at face value. *)
Record Reply : Type := mkReply {
  result : list V8ScriptCoverage;
}.

(** An asynchronous computation of the class: it returns, throws (a rejected
    promise), or sends a request and goes on with the answer.  A rejected
    request is raised at its [await]. *)
Inductive Async (A : Type) : Type :=
  | Return (a : A)
  | Throw (e : exn)
  | Call (r : Request) (k : Reply -> Async A).
Arguments Return {A} a.
Arguments Throw {A} e.
Arguments Call {A} r k.

Fixpoint Async_then {A B} (m : Async A) (f : A -> Async B) : Async B :=
  match m with
  | Return a => f a
  | Throw e => Throw e
  | Call r k => Call r (fun v => Async_then (k v) f)
  end.

#[global] Instance Async_ret : MRet Async := fun _ a => Return a.
#[global] Instance Async_bind : MBind Async := fun _ _ f m => Async_then m f.

(** A synchronous completion inside a [then] callback or an [async] body. *)
Definition settle {A} (r : Result A) : Async A :=
  match r with
  | Ok a => Return a
  | Err e => Throw e
  end.

(** What the collaborator does with a request: it acknowledges it with a
    reply, rejects it with an error, or never answers (there is no
    deadline). *)
Inductive Answer : Type :=
  | Acknowledged (v : Reply)
  | Refused (e : exn)
  | Unanswered.

(** What an observer of the connection sees. *)
Inductive Event : Type :=
  | Issued (r : Request)
  | Completed (r : Request) (o : Result Reply).

(** The collaborator: any state machine over the requests. *)
Record Collaborator : Type := mkCollaborator {
  cstate : Type;
  respond : cstate -> Request -> cstate * Answer;
}.

(** Running a computation against a collaborator: the events in the order in
    which they happen, the collaborator's final state, and how the promise
    settled; [None] when it stays pending on a request that is never
    answered. *)
Fixpoint run {A} (c : Collaborator) (m : Async A) (s : cstate c)
  : list Event * cstate c * option (Result A) :=
  match m with
  | Return a => ([], s, Some (Ok a))
  | Throw e => ([], s, Some (Err e))
  | Call r k =>
      match respond c s r with
      | (s', Acknowledged v) =>
          let '(t, s'', res) := run c (k v) s' in
          (Issued r :: Completed r (Ok v) :: t, s'', res)
      | (s', Refused e) => ([Issued r; Completed r (Err e)], s', Some (Err e))
      | (s', Unanswered) => ([Issued r], s', None)
      end
  end.

Definition trace {A} (c : Collaborator) (m : Async A) (s : cstate c) : list Event :=
  (run c m s).1.1.

Definition completion {A} (c : Collaborator) (m : Async A) (s : cstate c)
  : option (Result A) :=
  (run c m s).2.

(** The requests of a trace, in the order of issue. *)
Definition requests (t : list Event) : list Request :=
  omap (fun e => match e with Issued r => Some r | Completed _ _ => None end) t.

(** [this.session.connect()], [this.session.disconnect()] and [this.post]. *)
Definition session_connect : Async unit := Call SessionConnect (fun _ => Return tt).
Definition session_disconnect : Async unit := Call SessionDisconnect (fun _ => Return tt).
Definition post (method : string) (params : option object) : Async Reply :=
  Call (Post method params) Return.

(** ** The class, lines 16-100 *)

Module Undocumented.

(** [interface TestCoverage { [testKey: string]: string[] }] (lines 12-14):
    an object with any number of keys, each holding a list of strings. *)
Abbreviation TestCoverage := object.

Section V8CoverageCollector.
Context `{UrlApi, PathApi}.

(** Lines 75-77. *)
Definition enable : Async unit :=
  _ ← post "Profiler.enable" None; mret tt.

(** Lines 79-81. *)
Definition disable : Async unit :=
  _ ← post "Profiler.disable" None; mret tt.

(** Lines 83-88. *)
Definition startPreciseCoverage : Async unit :=
  _ ← post "Profiler.startPreciseCoverage"
        (Some {[ "callCount" := VBool true; "detailed" := VBool false ]});
  mret tt.

(** Lines 90-92. *)
Definition stopPreciseCoverage : Async unit :=
  _ ← post "Profiler.stopPreciseCoverage" None; mret tt.

(** Lines 94-99. *)
Definition takePreciseCoverage : Async (list V8ScriptCoverage) :=
  reply ← post "Profiler.takePreciseCoverage" None;
  mret (result reply).

(** Lines 28-32. *)
Definition connect : Async unit :=
  session_connect;;
  enable;;
  startPreciseCoverage.

(** Lines 34-38. *)
Definition disconnect : Async unit :=
  stopPreciseCoverage;;
  disable;;
  session_disconnect.

(** Lines 40-42. *)
Definition resetCoverage : Async unit :=
  _ ← takePreciseCoverage; mret tt.

(** Lines 57-59. *)
Definition testKey (wd testFile testName : string) : string :=
  relative wd testFile +:+ "::" +:+ testName +:+ "|run".

(** The callback of [filter], lines 64-71: [url] is the parsed URL when the
    string can be parsed and [false] otherwise. *)
Definition coveredFiles_filter (s : string) : bool :=
  match (if URL_canParse s then URL_parse s else None) with
  | Some url =>
      String.eqb (protocol url) "file:"
      && negb (includes (pathname url) "node_modules")
  | None => false
  end.

(** Lines 61-73.  The last [map] stops at the first [fileURLToPath] that
    throws. *)
Definition coveredFiles (wd : string) (result : list V8ScriptCoverage)
  : Result (list string) :=
  mapM (fun url => p ← fileURLToPath url; mret (relative wd p))
       (filter (fun s => coveredFiles_filter s = true) (map url result)).

(** The callback of [then], lines 49-54. *)
Definition collectCoverage_then (wd testFile testName : string)
    (result : list V8ScriptCoverage) : Result TestCoverage :=
  let testKey := testKey wd testFile testName in
  files ← coveredFiles wd result;
  mret {[ testKey := VStrings files ]}.

(** Lines 44-55. *)
Definition collectCoverage (wd testFile testName : string) : Async TestCoverage :=
  result ← takePreciseCoverage;
  settle (collectCoverage_then wd testFile testName result).

End V8CoverageCollector.
End Undocumented.

(** ** The class, lines 179-288 *)

Module Documented.

(** [interface TestCoverage { testKey: string; coveredFiles: string[] }]
    (lines 160-173). *)
Abbreviation TestCoverage := object.

Section V8CoverageCollector.
Context `{UrlApi, PathApi}.

(** Lines 263-265. *)
Definition enable : Async unit :=
  _ ← post "Profiler.enable" None; mret tt.

(** Lines 267-269. *)
Definition disable : Async unit :=
  _ ← post "Profiler.disable" None; mret tt.

(** Lines 271-276. *)
Definition startPreciseCoverage : Async unit :=
  _ ← post "Profiler.startPreciseCoverage"
        (Some {[ "callCount" := VBool true; "detailed" := VBool false ]});
  mret tt.

(** Lines 278-280. *)
Definition stopPreciseCoverage : Async unit :=
  _ ← post "Profiler.stopPreciseCoverage" None; mret tt.

(** Lines 282-287. *)
Definition takePreciseCoverage : Async (list V8ScriptCoverage) :=
  reply ← post "Profiler.takePreciseCoverage" None;
  mret (result reply).

(** Lines 196-200. *)
Definition connect : Async unit :=
  session_connect;;
  enable;;
  startPreciseCoverage.

(** Lines 207-211. *)
Definition disconnect : Async unit :=
  stopPreciseCoverage;;
  disable;;
  session_disconnect.

(** Lines 218-220. *)
Definition resetCoverage : Async unit :=
  _ ← takePreciseCoverage; mret tt.

(** Lines 245-247. *)
Definition testKey (wd testFile testName : string) : string :=
  relative wd testFile +:+ "::" +:+ testName +:+ "|run".

(** The callback of [filter], lines 252-259. *)
Definition coveredFiles_filter (s : string) : bool :=
  match (if URL_canParse s then URL_parse s else None) with
  | Some url =>
      String.eqb (protocol url) "file:"
      && negb (includes (pathname url) "node_modules")
  | None => false
  end.

(** Lines 249-261. *)
Definition coveredFiles (wd : string) (result : list V8ScriptCoverage)
  : Result (list string) :=
  mapM (fun url => p ← fileURLToPath url; mret (relative wd p))
       (filter (fun s => coveredFiles_filter s = true) (map url result)).

(** The callback of [then], lines 236-242. *)
Definition collectCoverage_then (wd testFile testName : string)
    (result : list V8ScriptCoverage) : Result TestCoverage :=
  let testKey := testKey wd testFile testName in
  files ← coveredFiles wd result;
  mret {[ "testKey" := VString testKey; "coveredFiles" := VStrings files ]}.

(** Lines 231-243. *)
Definition collectCoverage (wd testFile testName : string) : Async TestCoverage :=
  result ← takePreciseCoverage;
  settle (collectCoverage_then wd testFile testName result).

End V8CoverageCollector.
End Documented.

(** ** A model of the Node.js built-ins on POSIX

    Used to evaluate the class on explicit inputs.  [relative] follows
    [path.posix.relative]: both paths are resolved against the current
    directory and normalised, the common leading segments are dropped, and
    what is left of [from] is climbed with [..].  The URL parser covers the
    two shapes the scenarios use, over letters, digits and [-._/]:
    [file:] URLs and URLs with an opaque path such as [node:internal/x];
    anything else, also where Node would parse it, is answered [None]. *)

Module Posix.

(** [normalizeString]: empty and [.] segments vanish, [..] removes the segment
    before it and is dropped at the root. *)
Fixpoint normalize_onto (acc : list string) (segs : list string) : list string :=
  match segs with
  | [] => acc
  | seg :: rest =>
      if String.eqb seg "" || String.eqb seg "." then normalize_onto acc rest
      else if String.eqb seg ".." then normalize_onto (tail acc) rest
      else normalize_onto (seg :: acc) rest
  end.

Definition normalize (segs : list string) : list string :=
  rev (normalize_onto [] segs).

Definition isAbsolute (p : string) : bool := startsWith p "/".

(** The segments of [path.resolve(p)] when the process runs in [cwd]. *)
Definition resolve_segments (cwd p : string) : list string :=
  if isAbsolute p then normalize (split "/" p)
  else normalize (split "/" cwd ++ split "/" p).

Definition resolve (cwd p : string) : string :=
  "/" +:+ join "/" (resolve_segments cwd p).

(** What is left of two segment lists once their common prefix is dropped. *)
Fixpoint strip_common (from to : list string) : list string * list string :=
  match from, to with
  | f :: from', t :: to' =>
      if String.eqb f t then strip_common from' to' else (from, to)
  | _, _ => (from, to)
  end.

Definition relative (cwd from to : string) : string :=
  let '(up, down) :=
    strip_common (resolve_segments cwd from) (resolve_segments cwd to) in
  join "/" (replicate (length up) ".." ++ down).

Definition pathApi (cwd : string) : PathApi := Build_PathApi (relative cwd).

Definition is_lower (c : ascii) : bool :=
  let n := nat_of_ascii c in (97 <=? n)%nat && (n <=? 122)%nat.
Definition is_upper (c : ascii) : bool :=
  let n := nat_of_ascii c in (65 <=? n)%nat && (n <=? 90)%nat.
Definition is_digit (c : ascii) : bool :=
  let n := nat_of_ascii c in (48 <=? n)%nat && (n <=? 57)%nat.
Definition is_alpha (c : ascii) : bool := is_lower c || is_upper c.

(** The characters a scheme is made of after its first letter. *)
Definition is_scheme_char (c : ascii) : bool :=
  is_alpha c || is_digit c
  || Ascii.eqb c "+" || Ascii.eqb c "-" || Ascii.eqb c ".".

(** The characters the model accepts after the scheme: the parser keeps them
    as they are and none of them opens a query, a fragment or an escape. *)
Definition is_plain_char (c : ascii) : bool :=
  is_alpha c || is_digit c
  || Ascii.eqb c "-" || Ascii.eqb c "." || Ascii.eqb c "_" || Ascii.eqb c "/".

Fixpoint all_chars (p : ascii -> bool) (s : string) : bool :=
  match s with
  | EmptyString => true
  | String c s' => p c && all_chars p s'
  end.

Definition to_lower (c : ascii) : ascii :=
  if is_upper c then ascii_of_nat (nat_of_ascii c + 32) else c.

Fixpoint lowercase (s : string) : string :=
  match s with
  | EmptyString => EmptyString
  | String c s' => String (to_lower c) (lowercase s')
  end.

(** The text before the first [:] and the text after it. *)
Fixpoint cut_scheme (s : string) : option (string * string) :=
  match s with
  | EmptyString => None
  | String c s' =>
      if Ascii.eqb c ":" then Some (EmptyString, s')
      else match cut_scheme s' with
           | Some (scheme, rest) => Some (String c scheme, rest)
           | None => None
           end
  end.

Definition valid_scheme (scheme : string) : bool :=
  match scheme with
  | EmptyString => false
  | String c s' => is_alpha c && all_chars is_scheme_char s'
  end.

(** The text before the first [/] and the text from that [/] on. *)
Fixpoint cut_host (s : string) : string * string :=
  match s with
  | EmptyString => (EmptyString, EmptyString)
  | String c s' =>
      if Ascii.eqb c "/" then (EmptyString, s)
      else let '(host, rest) := cut_host s' in (String c host, rest)
  end.

(** The path state of the URL parser on the segments of a hierarchical path:
    [..] removes the segment before it, [.] is skipped, and either one in
    last position leaves an empty last segment. *)
Fixpoint path_state (acc : list string) (segs : list string) : list string :=
  match segs with
  | [] => rev acc
  | [seg] =>
      if String.eqb seg ".." then rev ("" :: tail acc)
      else if String.eqb seg "." then rev ("" :: acc)
      else rev (seg :: acc)
  | seg :: rest =>
      if String.eqb seg ".." then path_state (tail acc) rest
      else if String.eqb seg "." then path_state acc rest
      else path_state (seg :: acc) rest
  end.

Definition drop_slash (s : string) : string :=
  match s with
  | String "/" s' => s'
  | _ => s
  end.

Definition hierarchical_pathname (s : string) : string :=
  "/" +:+ join "/" (path_state [] (split "/" (drop_slash s))).

(** A [file:] URL: [file://host/path], [file:/path] or [file:path]. *)
Definition parse_file (rest : string) : option URL :=
  if startsWith rest "//" then
    let '(host, path) := cut_host (String.substring 2 (String.length rest) rest) in
    if all_chars is_lower host then
      Some (mkURL "file:" (if String.eqb host "localhost" then "" else host)
                  (hierarchical_pathname path))
    else None
  else Some (mkURL "file:" "" (hierarchical_pathname rest)).

Definition is_special (scheme : string) : bool :=
  bool_decide (scheme ∈ ["file"; "ftp"; "http"; "https"; "ws"; "wss"]).

Definition URL_parse (s : string) : option URL :=
  match cut_scheme s with
  | Some (scheme, rest) =>
      if valid_scheme scheme && all_chars is_plain_char rest then
        let scheme := lowercase scheme in
        if String.eqb scheme "file" then parse_file rest
        else if is_special scheme || startsWith rest "/" then None
        else Some (mkURL (scheme +:+ ":") "" rest)
      else None
  | None => None
  end.

(** [fileURLToPath] of a string on POSIX: the string is parsed, must be a
    [file:] URL without a host, and its path is decoded (nothing to decode
    over the characters of the model). *)
Definition fileURLToPath (s : string) : Result string :=
  match URL_parse s with
  | None => Err "ERR_INVALID_URL"
  | Some u =>
      if negb (String.eqb (protocol u) "file:") then Err "ERR_INVALID_URL_SCHEME"
      else if negb (String.eqb (hostname u) "") then Err "ERR_INVALID_FILE_URL_HOST"
      else Ok (pathname u)
  end.

Definition urlApi : UrlApi := Build_UrlApi URL_parse fileURLToPath.

End Posix.

(** ** The vocabulary of the specification *)

(** The operations of the collaborator (spec, section 6) as the class
    requests them. *)
Definition open_connection : Request := SessionConnect.
Definition close_connection : Request := SessionDisconnect.
Definition enable_profiling : Request := Post "Profiler.enable" None.
Definition disable_profiling : Request := Post "Profiler.disable" None.
Definition start_continuous_coverage (config : option object) : Request :=
  Post "Profiler.startPreciseCoverage" config.
Definition stop_continuous_coverage : Request :=
  Post "Profiler.stopPreciseCoverage" None.
Definition take_snapshot : Request := Post "Profiler.takePreciseCoverage" None.

(** The configuration [{ callCount: true, detailed: false }] and nothing
    else. *)
Definition tracks_call_counts_only (config : option object) : Prop :=
  exists o, config = Some o
    /\ dom o = {[ "callCount"; "detailed" ]}
    /\ o !! "callCount" = Some (VBool true)
    /\ o !! "detailed" = Some (VBool false).

(** The collaborator, from state [s], acknowledges the requests [rs] one
    after the other. *)
Fixpoint accepts (c : Collaborator) (s : cstate c) (rs : list Request) : Prop :=
  match rs with
  | [] => True
  | r :: rs' =>
      match respond c s r with
      | (s', Acknowledged _) => accepts c s' rs'
      | _ => False
      end
  end.

(** In the trace [t], some request [r] satisfying [P] is issued only after
    the request [before] has been acknowledged. *)
Definition issued_only_after (t : list Event) (P : Request -> Prop)
    (before : Request) : Prop :=
  forall i r, t !! i = Some (Issued r) -> P r ->
    exists j v, (j < i)%nat /\ t !! j = Some (Completed before (Ok v)).

(** The step of [disconnect] that takes back a step of [connect]. *)
Definition undoes (r : Request) : Request :=
  match r with
  | SessionConnect => close_connection
  | SessionDisconnect => SessionDisconnect
  | Post method _ =>
      if String.eqb method "Profiler.enable" then disable_profiling
      else if String.eqb method "Profiler.startPreciseCoverage"
      then stop_continuous_coverage
      else r
  end.

(** The three conditions on a record as the class tests them: the [url] can
    be parsed, its protocol is [file:], and [node_modules] does not occur in
    its path. *)
Definition passes_filter `{UrlApi} (r : V8ScriptCoverage) : Prop :=
  exists u, URL_parse (url r) = Some u
    /\ protocol u = "file:"
    /\ ~ (exists a b, pathname u = a +:+ "node_modules" +:+ b).

(** The same with the third condition on whole path segments: no segment of
    the path is [node_modules]. *)
Definition has_no_node_modules_segment `{UrlApi} (r : V8ScriptCoverage) : Prop :=
  exists u, URL_parse (url r) = Some u
    /\ protocol u = "file:"
    /\ "node_modules" ∉ split "/" (pathname u).

(** [e] is the entry of the record [r]: its file path relative to [wd]. *)
Definition entry_of `{UrlApi, PathApi} (wd : string) (r : V8ScriptCoverage)
    (e : string) : Prop :=
  exists p, fileURLToPath (url r) = Ok p /\ e = relative wd p.

(** The path [p] lies outside the tree rooted at the directory [wd]. *)
Definition outside_tree (cwd wd p : string) : Prop :=
  ~ (Posix.resolve_segments cwd wd `prefix_of` Posix.resolve_segments cwd p).

(** A collaborator that acknowledges every request and answers every
    snapshot request with the same snapshot. *)
Definition steady (snapshot : list V8ScriptCoverage) : Collaborator :=
  mkCollaborator unit (fun s _ => (s, Acknowledged (mkReply snapshot))).

(** A collaborator that acknowledges every request but the enabling of the
    profiler, which it answers by [answer]. *)
Definition stubborn (answer : Answer) : Collaborator :=
  mkCollaborator unit (fun s r =>
    (s, match r with
        | Post "Profiler.enable" _ => answer
        | _ => Acknowledged (mkReply [])
        end)).

(** ** Scenarios *)

(** A run in the working directory [/repo]. *)
Definition repo : PathApi := Posix.pathApi "/repo".

(** A snapshot as the engine reports it: an internal module, the files of the
    test scenario of the repository, a dependency, a script without url, a
    file outside the working directory, and a file reported twice. *)
Definition repo_snapshot : list V8ScriptCoverage :=
  [ mkScript "1" "node:internal/something" [];
    mkScript "2" "file:///repo/test/integration.test.ts" [];
    mkScript "3" "file:///repo/node_modules/lib/index.js" [];
    mkScript "4" "" [];
    mkScript "5" "file:///repo/src/index.ts" [];
    mkScript "6" "file:///repo/test/fixtures/math.ts" [];
    mkScript "7" "file:///other/lib.js" [];
    mkScript "8" "file:///repo/src/index.ts" [] ].

Definition repo_files : list string :=
  [ "test/integration.test.ts"; "src/index.ts"; "test/fixtures/math.ts";
    "../other/lib.js"; "src/index.ts" ].

(** A file in a directory whose name merely contains [node_modules]. *)
Definition backup_script : V8ScriptCoverage :=
  mkScript "9" "file:///repo/my_node_modules/a.js" [].

(** A file on another host. *)
Definition remote_script : V8ScriptCoverage :=
  mkScript "11" "file://host/x.js" [].

(** A url that names the parent of the working directory [/repo/sub]. *)
Definition parent_script : V8ScriptCoverage :=
  mkScript "10" "file:///repo" [].

(** ** Callers and further vocabulary *)

(** The body of the tests of the repository (test file, lines 307-308 and
    320-323) and of the hooks of the usage example (lines 123-134): the
    coverage is reset, the test runs, the coverage is collected. *)
Definition coverage_of_test `{UrlApi, PathApi} (wd testFile testName : string)
  : Async object :=
  Documented.resetCoverage;;
  Documented.collectCoverage wd testFile testName.

(** Awaiting the requests [rs] one after the other and nothing else. *)
Fixpoint script (rs : list Request) : Async unit :=
  match rs with
  | [] => Return ()
  | r :: rs' => Call r (fun _ => script rs')
  end.

(** The state of the collaborator once it has answered the requests [rs]. *)
Fixpoint state_after (c : Collaborator) (s : cstate c) (rs : list Request)
  : cstate c :=
  match rs with
  | [] => s
  | r :: rs' => state_after c (respond c s r).1 rs'
  end.

(** The computation [m] settles as its [steps] are answered: it returns when
    all of them are acknowledged, throws the error of the first one that is
    rejected, and stays pending on the first one that is never answered. *)
Definition settles_at_first_failure (m : Async unit) (steps : list Request) : Prop :=
  forall (c : Collaborator) (s : cstate c),
    (completion c m s = Some (Ok ()) <-> accepts c s steps)
    /\ (forall e, completion c m s = Some (Err e) <->
          exists acked r rest, steps = acked ++ r :: rest
            /\ accepts c s acked
            /\ (respond c (state_after c s acked) r).2 = Refused e)
    /\ (completion c m s = None <->
          exists acked r rest, steps = acked ++ r :: rest
            /\ accepts c s acked
            /\ (respond c (state_after c s acked) r).2 = Unanswered).

(** An engine that has the snapshots [pending] in store: each snapshot
    request is answered with the next one, which is then gone; every other
    request is acknowledged. *)
Definition queued : Collaborator :=
  mkCollaborator (list (list V8ScriptCoverage)) (fun pending r =>
    match r with
    | Post "Profiler.takePreciseCoverage" _ =>
        (tail pending, Acknowledged (mkReply (default [] (head pending))))
    | _ => (pending, Acknowledged (mkReply []))
    end).

(** A path segment that [path.resolve] and the URL parser leave as it is. *)
Definition plain_segment (seg : string) : Prop :=
  seg <> "" /\ seg <> "." /\ seg <> "..".

(** The separator [/] does not occur in [seg]. *)
Definition slash_free (seg : string) : Prop :=
  forall a b, seg <> a +:+ "/" +:+ b.

(** The path [p] lies in the tree rooted at the directory [wd]. *)
Definition inside_tree (cwd wd p : string) : Prop :=
  Posix.resolve_segments cwd wd `prefix_of` Posix.resolve_segments cwd p.

(** * Properties *)

(** ** Strings *)

#[local] Arguments String.append : simpl nomatch.

Lemma prefix_true_iff (p s : string) :
  String.prefix p s = true <-> exists b, s = p +:+ b.
Proof.
  revert s. induction p as [|c p IH]; intros s; simpl.
  - split; [intros _; by exists s | by destruct s].
  - destruct s as [|d s]; simpl.
    + split; [done | intros [b Hb]; done].
    + destruct (ascii_dec c d) as [->|Hne].
      * rewrite IH. split; intros [b Hb]; exists b; simpl in *; congruence.
      * split; [done | intros [b Hb]; simpl in *; congruence].
Qed.

(** [includes] is the substring test. *)
Lemma includes_true_iff (s needle : string) :
  includes s needle = true <-> exists a b, s = a +:+ needle +:+ b.
Proof.
  induction s as [|c s IH]; cbn [includes].
  - rewrite orb_false_r, prefix_true_iff. split.
    + intros [b Hb]. by exists "", b.
    + intros [[|x a] [b Hb]]; [by exists b | done].
  - rewrite orb_true_iff, prefix_true_iff, IH. split.
    + intros [[b Hb] | (a & b & Hab)].
      * by exists "", b.
      * exists (String c a), b. simpl. by rewrite Hab.
    + intros ([|x a] & b & Hab); simpl in Hab.
      * left. by exists b.
      * right. exists a, b. congruence.
Qed.

(** [split] always yields a first segment, and it is a prefix of the string. *)
Lemma split_head (sep : ascii) (s : string) :
  exists seg segs b, split sep s = seg :: segs /\ s = seg +:+ b.
Proof.
  induction s as [|c s (seg & segs & b & Hsplit & Hs)]; simpl.
  - by exists "", [], "".
  - destruct (Ascii.eqb c sep).
    + by exists "", (split sep s), (String c s).
    + rewrite Hsplit. exists (String c seg), segs, b. simpl. by rewrite <-Hs.
Qed.

(** Every segment of [s.split(sep)] is a substring of [s]. *)
Lemma split_segment_substring (sep : ascii) (s seg : string) :
  seg ∈ split sep s -> exists a b, s = a +:+ seg +:+ b.
Proof.
  revert seg. induction s as [|c s IH]; intros seg; simpl.
  - intros Hin. apply list_elem_of_singleton in Hin as ->. by exists "", "".
  - destruct (Ascii.eqb c sep).
    + intros [->|Hin]%elem_of_cons.
      * by exists "", (String c s).
      * destruct (IH _ Hin) as (a & b & Hab). exists (String c a), b.
        simpl. by rewrite <-Hab.
    + destruct (split_head sep s) as (seg0 & segs & b0 & Hsplit & Hs0).
      rewrite Hsplit in IH |- *.
      intros [->|Hin]%elem_of_cons.
      * exists "", b0. simpl. by rewrite <-Hs0.
      * destruct (IH seg) as (a & b & Hab); [by right|].
        exists (String c a), b. simpl. by rewrite <-Hab.
Qed.

(** A path with a segment equal to [needle] includes [needle]. *)
Lemma includes_segment (s needle : string) :
  needle ∈ split "/" s -> includes s needle = true.
Proof. intros Hin. apply includes_true_iff. by eapply split_segment_substring. Qed.

(** ** Completions *)

Lemma mapM_app_Ok {A B} (f : A -> Result B) (l1 l2 : list A) (out : list B) :
  mapM f (l1 ++ l2) = Ok out <->
  exists o1 o2, mapM f l1 = Ok o1 /\ mapM f l2 = Ok o2 /\ out = o1 ++ o2.
Proof.
  revert out. induction l1 as [|x l1 IH]; intros out; simpl.
  - split.
    + intros Hout. by exists [], out.
    + intros (o1 & o2 & [= <-] & Ho2 & ->). done.
  - destruct (f x) as [y|e]; simpl.
    + destruct (mapM f (l1 ++ l2)) as [o|e] eqn:Happ; simpl.
      * destruct (proj1 (IH o) eq_refl) as (o1 & o2 & -> & Ho2 & ->). simpl.
        split.
        -- intros [= <-]. by exists (y :: o1), o2.
        -- intros (o1' & o2' & [= <-] & Ho2' & ->). rewrite Ho2 in Ho2'.
           by injection Ho2' as ->.
      * split; [done|]. intros (o1' & o2' & Ho1' & Ho2' & ->).
        destruct (mapM f l1) as [o1|]; simpl in Ho1'; [|done].
        assert (Err e = Ok (o1 ++ o2')) as Habs; [|done].
        apply IH. by exists o1, o2'.
    + split; [done|]. by intros (o1' & o2' & Ho1' & _).
Qed.

(** ** Runs *)

Lemma run_then {A B} (c : Collaborator) (m : Async A) (f : A -> Async B)
    (s : cstate c) :
  run c (m ≫= f) s =
    match run c m s with
    | (t, s', Some (Ok a)) =>
        let '(t', s'', res) := run c (f a) s' in (t ++ t', s'', res)
    | (t, s', Some (Err e)) => (t, s', Some (Err e))
    | (t, s', None) => (t, s', None)
    end.
Proof.
  revert s. unfold mbind, Async_bind.
  induction m as [a|e|r k IH]; intros s; simpl.
  - by destruct (run c (f a) s) as [[t s'] res].
  - done.
  - destruct (respond c s r) as [s' [v|e|]]; [|done..].
    rewrite IH. destruct (run c (k v) s') as [[t s''] [[a|e]|]]; [|done..].
    by destruct (run c (f a) s'') as [[t' s3] res].
Qed.

(** Case analysis on the collaborator's answer to the next request. *)
Ltac answer :=
  match goal with
  | |- context [respond ?c ?s ?r] =>
      let s' := fresh "s" in
      let v := fresh "v" in
      let e := fresh "e" in
      destruct (respond c s r) as [s' [v|e|]] eqn:?; simpl
  end.

(** Case analysis on a position in an explicit trace. *)
Ltac lookup_cases i :=
  repeat (destruct i as [|i]; simpl in *; simplify_eq; try done).

(** ** The session lifecycle *)

(** The lifecycle methods are the same in both copies of the class. *)
Lemma lifecycle_copies_agree :
  Undocumented.connect = Documented.connect
  /\ Undocumented.disconnect = Documented.disconnect
  /\ Undocumented.resetCoverage = Documented.resetCoverage.
Proof. done. Qed.

Lemma connect_opens_enables_starts (c : Collaborator) (s : cstate c) :
  accepts c s [open_connection; enable_profiling] ->
  requests (run c Documented.connect s).1.1
  = [open_connection; enable_profiling;
     start_continuous_coverage
       (Some {[ "callCount" := VBool true; "detailed" := VBool false ]})].
Proof.
  unfold Documented.connect, Documented.enable,
    Documented.startPreciseCoverage, session_connect, post.
  unfold open_connection, enable_profiling, start_continuous_coverage.
  simpl. by repeat answer.
Qed.

Lemma disconnect_stops_disables_closes (c : Collaborator) (s : cstate c) :
  accepts c s [stop_continuous_coverage; disable_profiling] ->
  requests (run c Documented.disconnect s).1.1
  = [stop_continuous_coverage; disable_profiling; close_connection].
Proof.
  unfold Documented.disconnect, Documented.disable,
    Documented.stopPreciseCoverage, session_disconnect, post.
  unfold stop_continuous_coverage, disable_profiling, close_connection.
  simpl. by repeat answer.
Qed.

Lemma coverage_config_exact :
  tracks_call_counts_only
    (Some {[ "callCount" := VBool true; "detailed" := VBool false ]}).
Proof.
  eexists. split; [done|]. split; [|done].
  by rewrite dom_insert_L, dom_singleton_L.
Qed.

(** C7.  Whatever the collaborator answers, [connect] sends its requests in the
    order: open the connection, enable profiling, start continuous coverage;
    a run stops at the first request that is rejected or left unanswered, and
    sends all three exactly when the first two are acknowledged.  A start
    request carries the configuration [callCount = true], [detailed = false]
    and nothing else, and is issued only after the enable request has been
    acknowledged, which is issued only after the connection is open. *)
Theorem connect_enable_before_start (c : Collaborator) (s : cstate c) :
  let t := trace c Documented.connect s in
  let start := start_continuous_coverage
    (Some {[ "callCount" := VBool true; "detailed" := VBool false ]}) in
  requests t `prefix_of` [open_connection; enable_profiling; start]
  /\ (accepts c s [open_connection; enable_profiling]
      <-> requests t = [open_connection; enable_profiling; start])
  /\ (forall i config, t !! i = Some (Issued (start_continuous_coverage config)) ->
        tracks_call_counts_only config)
  /\ issued_only_after t (fun r => exists config, r = start_continuous_coverage config)
       enable_profiling
  /\ issued_only_after t (fun r => r = enable_profiling) open_connection.
Proof.
  unfold trace, Documented.connect, Documented.enable,
    Documented.startPreciseCoverage, session_connect, post, issued_only_after.
  unfold open_connection, enable_profiling, start_continuous_coverage.
  simpl. repeat answer.
  all: split_and!; try (by eexists); try done.
  all: try (intros i config Hi; lookup_cases i; apply coverage_config_exact).
  all: try (intros i r Hi [config ->]; lookup_cases i;
            by exists 3%nat, v0; split; [lia|]).
  all: intros i r Hi ->; lookup_cases i; by exists 1%nat, v; split; [lia|].
Qed.

(** C8.  Whatever the collaborator answers, [disconnect], the same in both
    copies of the class, sends its requests in the order: stop continuous
    coverage, disable profiling, close the connection; a run stops at the
    first request that is rejected or left unanswered and sends all three
    exactly when the first two are acknowledged.  Each step is issued only
    after the step before it has been acknowledged, and the sequence takes
    back the three steps of [connect] from the last to the first. *)
Theorem disconnect_inverse_of_connect (c : Collaborator) (s : cstate c) :
  let t := trace c Documented.disconnect s in
  requests t `prefix_of`
    [stop_continuous_coverage; disable_profiling; close_connection]
  /\ (accepts c s [stop_continuous_coverage; disable_profiling]
      <-> requests t = [stop_continuous_coverage; disable_profiling; close_connection])
  /\ issued_only_after t (fun r => r = disable_profiling) stop_continuous_coverage
  /\ issued_only_after t (fun r => r = close_connection) disable_profiling
  /\ (forall (c' : Collaborator) (s' : cstate c'),
        accepts c' s' [open_connection; enable_profiling] ->
        accepts c s [stop_continuous_coverage; disable_profiling] ->
        requests t = undoes <$> reverse (requests (trace c' Documented.connect s')))
  /\ Undocumented.disconnect = Documented.disconnect.
Proof.
  intros t. subst t. split_and!; [..|done].
  5: { intros c' s' Hconnect Hdisconnect. unfold trace.
       by rewrite (connect_opens_enables_starts c' s' Hconnect),
         (disconnect_stops_disables_closes c s Hdisconnect). }
  all: unfold trace, Documented.disconnect, Documented.disable,
    Documented.stopPreciseCoverage, session_disconnect, post, issued_only_after.
  all: unfold stop_continuous_coverage, disable_profiling, close_connection.
  all: simpl; repeat answer; try (by eexists); try done.
  all: intros i r Hi ->; lookup_cases i.
  all: first [ by exists 1%nat, v; split; [lia|]
             | by exists 3%nat, v0; split; [lia|] ].
Qed.

(** C9.  Whatever the collaborator answers, [resetCoverage], the same in both
    copies of the class, sends exactly one request, the snapshot request.
    When it is acknowledged the run completes with no value, whatever the
    snapshot in the answer; when it is rejected the rejection is raised; when
    it is never answered the run stays pending. *)
Theorem resetCoverage_one_snapshot_discarded (c : Collaborator) (s : cstate c) :
  requests (trace c Documented.resetCoverage s) = [take_snapshot]
  /\ (forall reply s', respond c s take_snapshot = (s', Acknowledged reply) ->
        run c Documented.resetCoverage s
        = ([Issued take_snapshot; Completed take_snapshot (Ok reply)], s',
           Some (Ok ())))
  /\ (forall e s', respond c s take_snapshot = (s', Refused e) ->
        run c Documented.resetCoverage s
        = ([Issued take_snapshot; Completed take_snapshot (Err e)], s',
           Some (Err e)))
  /\ (forall s', respond c s take_snapshot = (s', Unanswered) ->
        run c Documented.resetCoverage s = ([Issued take_snapshot], s', None))
  /\ Undocumented.resetCoverage = Documented.resetCoverage.
Proof.
  unfold trace, Documented.resetCoverage, Documented.takePreciseCoverage, post.
  unfold take_snapshot. simpl.
  destruct (respond c s _) as [s1 [v|e|]]; simpl.
  all: split_and!; try done.
  all: by intros; simplify_eq.
Qed.

(** ** The snapshot reduction *)

Section Reduction.
Context `{UrlApi, PathApi}.

(** Both copies of the class reduce a snapshot in the same way. *)
Lemma coveredFiles_copies_agree :
  Undocumented.coveredFiles = Documented.coveredFiles
  /\ Undocumented.testKey = Documented.testKey.
Proof. done. Qed.

Lemma canParse_parse (s : string) :
  (if URL_canParse s then URL_parse s else None) = URL_parse s.
Proof.
  unfold URL_canParse. case_bool_decide as Hs; [done|].
  by destruct (URL_parse s) as [u|]; [destruct Hs|].
Qed.

Lemma filter_true_iff (r : V8ScriptCoverage) :
  Documented.coveredFiles_filter (url r) = true <-> passes_filter r.
Proof.
  unfold Documented.coveredFiles_filter, passes_filter.
  rewrite canParse_parse. destruct (URL_parse (url r)) as [u|].
  - rewrite andb_true_iff, negb_true_iff, String.eqb_eq.
    rewrite <-not_true_iff_false, includes_true_iff. split.
    + intros [Hp Hn]. by exists u.
    + by intros (u' & [= <-] & Hp & Hn).
  - split; [done|]. by intros (u & Hu & _).
Qed.

Lemma filter_unparseable (s : string) :
  URL_parse s = None -> Documented.coveredFiles_filter s = false.
Proof.
  intros Hs. unfold Documented.coveredFiles_filter.
  by rewrite canParse_parse, Hs.
Qed.

Lemma coveredFiles_nil (wd : string) : Documented.coveredFiles wd [] = Ok [].
Proof. done. Qed.

Lemma coveredFiles_cons (wd : string) (r : V8ScriptCoverage)
    (snapshot : list V8ScriptCoverage) (out : list string) :
  Documented.coveredFiles wd (r :: snapshot) = Ok out <->
  (Documented.coveredFiles_filter (url r) = true
     /\ exists e rest, entry_of wd r e
          /\ Documented.coveredFiles wd snapshot = Ok rest /\ out = e :: rest)
  \/ (Documented.coveredFiles_filter (url r) = false
        /\ Documented.coveredFiles wd snapshot = Ok out).
Proof.
  unfold Documented.coveredFiles, entry_of. simpl.
  destruct (Documented.coveredFiles_filter (url r)) eqn:Hr.
  - rewrite filter_cons_True by done. simpl.
    destruct (fileURLToPath (url r)) as [p|e]; simpl.
    + destruct (mapM _ _) as [rest|e]; simpl; split.
      * intros [= <-]. left. split; [done|]. by exists (relative wd p), rest; eauto.
      * by intros [(_ & e & rest' & (p' & [= <-] & ->) & [= <-] & ->) | [? _]].
      * done.
      * by intros [(_ & e' & rest' & _ & ? & _) | [? _]].
    + split; [done|]. by intros [(_ & e' & rest' & (p' & ? & _) & _) | [? _]].
  - rewrite filter_cons_False by (by rewrite Hr). split.
    + intros Hout. by right.
    + by intros [[? _] | [_ Hout]].
Qed.

Lemma coveredFiles_app (wd : string) (l1 l2 : list V8ScriptCoverage)
    (out : list string) :
  Documented.coveredFiles wd (l1 ++ l2) = Ok out <->
  exists o1 o2, Documented.coveredFiles wd l1 = Ok o1
    /\ Documented.coveredFiles wd l2 = Ok o2 /\ out = o1 ++ o2.
Proof.
  unfold Documented.coveredFiles.
  by rewrite map_app, filter_app, mapM_app_Ok.
Qed.

Lemma coveredFiles_entries (wd : string) (snapshot : list V8ScriptCoverage)
    (out : list string) :
  Documented.coveredFiles wd snapshot = Ok out ->
  Forall2 (entry_of wd)
    (filter (fun r => Documented.coveredFiles_filter (url r) = true) snapshot) out.
Proof.
  revert out. induction snapshot as [|r snapshot IH]; intros out.
  - intros [= <-]. constructor.
  - intros [(Hr & e & rest & He & Hrest & ->) | [Hr Hout]]%coveredFiles_cons.
    + rewrite filter_cons_True by done. constructor; auto.
    + rewrite filter_cons_False by (by rewrite Hr). auto.
Qed.

(** C1, amended.  When [coveredFiles] returns, its result is the concatenation
    of what the records contribute, one after the other: a record whose url
    can be parsed, has the protocol [file:] and a path in which the text
    [node_modules] does not occur contributes exactly its entry, and every
    other record contributes nothing.  A record that contributes has, in
    particular, no path segment equal to [node_modules].  Both copies of the
    class compute the same. *)
Theorem coveredFiles_entry_iff_filter (wd : string)
    (snapshot : list V8ScriptCoverage) (out : list string) :
  Documented.coveredFiles wd snapshot = Ok out ->
  (exists contributions : list (list string),
     out = concat contributions
     /\ Forall2 (fun r entries =>
          (passes_filter r /\ exists e, entry_of wd r e /\ entries = [e])
          \/ (~ passes_filter r /\ entries = []))
        snapshot contributions)
  /\ (forall r, passes_filter r -> has_no_node_modules_segment r)
  /\ Undocumented.coveredFiles wd snapshot = Ok out.
Proof.
  intros Hout. split_and!; [..|done].
  - revert out Hout. induction snapshot as [|r snapshot IH]; intros out.
    + intros [= <-]. exists []. split; [done | constructor].
    + intros [(Hr & e & rest & He & Hrest & ->) | [Hr Hout]]%coveredFiles_cons.
      * destruct (IH _ Hrest) as (contributions & -> & Hall).
        exists ([e] :: contributions). split; [done|].
        constructor; [|done]. left. rewrite <-filter_true_iff. eauto.
      * destruct (IH _ Hout) as (contributions & -> & Hall).
        exists ([] :: contributions). split; [done|].
        constructor; [|done]. right. by rewrite <-filter_true_iff, Hr.
  - intros r (u & Hu & Hp & Hn). exists u. split_and!; [done..|].
    intros Hseg. apply Hn. by eapply split_segment_substring.
Qed.

(** C3.  When [coveredFiles] returns, its entries are those of the records
    that pass the filter, one entry per record, in the order of the snapshot,
    each the record's file path relative to [wd].  Of two such records the
    entry of the earlier one comes first, and both entries are present even
    when they are equal. *)
Theorem coveredFiles_order_and_duplicates (wd : string)
    (snapshot : list V8ScriptCoverage) (out : list string) :
  Documented.coveredFiles wd snapshot = Ok out ->
  (exists origins,
     origins = filter (fun r => Documented.coveredFiles_filter (url r) = true) snapshot
     /\ origins `sublist_of` snapshot
     /\ Forall2 (entry_of wd) origins out)
  /\ (forall l1 r1 l2 r2 l3,
        snapshot = l1 ++ r1 :: l2 ++ r2 :: l3 ->
        passes_filter r1 -> passes_filter r2 ->
        exists o1 e1 o2 e2 o3,
          out = o1 ++ e1 :: o2 ++ e2 :: o3
          /\ entry_of wd r1 e1 /\ entry_of wd r2 e2
          /\ Documented.coveredFiles wd l1 = Ok o1
          /\ Documented.coveredFiles wd l2 = Ok o2
          /\ Documented.coveredFiles wd l3 = Ok o3
          /\ (fileURLToPath (url r1) = fileURLToPath (url r2) -> e1 = e2)).
Proof.
  intros Hout. split.
  - eexists. split; [done|]. split; [apply sublist_filter|].
    by apply coveredFiles_entries.
  - intros l1 r1 l2 r2 l3 -> Hr1%filter_true_iff Hr2%filter_true_iff.
    apply coveredFiles_app in Hout as (o1 & o' & Ho1 & Hout & ->).
    apply coveredFiles_cons in Hout
      as [(_ & e1 & o'' & He1 & Hout & ->) | [Hr1' _]]; [|congruence].
    apply coveredFiles_app in Hout as (o2 & o' & Ho2 & Hout & ->).
    apply coveredFiles_cons in Hout
      as [(_ & e2 & o3 & He2 & Ho3 & ->) | [Hr2' _]]; [|congruence].
    exists o1, e1, o2, e2, o3. split_and!; try done.
    destruct He1 as (p1 & Hp1 & ->), He2 as (p2 & Hp2 & ->).
    rewrite Hp1, Hp2. by intros [= ->].
Qed.

(** [collectCoverage] sends the snapshot request and settles as its [then]
    callback does on the snapshot of the answer. *)
Lemma run_collectCoverage (c : Collaborator) (s : cstate c)
    (wd testFile testName : string) :
  run c (Documented.collectCoverage wd testFile testName) s =
    match respond c s take_snapshot with
    | (s', Acknowledged reply) =>
        ([Issued take_snapshot; Completed take_snapshot (Ok reply)], s',
         Some (Documented.collectCoverage_then wd testFile testName (result reply)))
    | (s', Refused e) =>
        ([Issued take_snapshot; Completed take_snapshot (Err e)], s', Some (Err e))
    | (s', Unanswered) => ([Issued take_snapshot], s', None)
    end.
Proof.
  unfold Documented.collectCoverage, Documented.takePreciseCoverage, post.
  unfold take_snapshot. simpl.
  destruct (respond c s _) as [s' [reply|e|]]; [|done..]. simpl.
  by destruct (Documented.collectCoverage_then _ _ _ _).
Qed.

Lemma run_collectCoverage_undocumented (c : Collaborator) (s : cstate c)
    (wd testFile testName : string) :
  run c (Undocumented.collectCoverage wd testFile testName) s =
    match respond c s take_snapshot with
    | (s', Acknowledged reply) =>
        ([Issued take_snapshot; Completed take_snapshot (Ok reply)], s',
         Some (Undocumented.collectCoverage_then wd testFile testName (result reply)))
    | (s', Refused e) =>
        ([Issued take_snapshot; Completed take_snapshot (Err e)], s', Some (Err e))
    | (s', Unanswered) => ([Issued take_snapshot], s', None)
    end.
Proof.
  unfold Undocumented.collectCoverage, Undocumented.takePreciseCoverage, post.
  unfold take_snapshot. simpl.
  destruct (respond c s _) as [s' [reply|e|]]; [|done..]. simpl.
  by destruct (Undocumented.collectCoverage_then _ _ _ _).
Qed.

(** C5.  A record whose url cannot be parsed is dropped without any other
    effect: [coveredFiles] and [collectCoverage] complete exactly as they do
    on the snapshot without that record, and a snapshot made of such records
    only gives a result with no covered file. *)
Theorem unparseable_url_is_dropped (c : Collaborator) (s s' : cstate c)
    (wd testFile testName : string) (l1 l2 : list V8ScriptCoverage)
    (r : V8ScriptCoverage) :
  URL_parse (url r) = None ->
  respond c s take_snapshot = (s', Acknowledged (mkReply (l1 ++ r :: l2))) ->
  Documented.coveredFiles wd (l1 ++ r :: l2) = Documented.coveredFiles wd (l1 ++ l2)
  /\ completion c (Documented.collectCoverage wd testFile testName) s
     = Some (Documented.collectCoverage_then wd testFile testName (l1 ++ l2))
  /\ (Forall (fun r' => URL_parse (url r') = None) (l1 ++ l2) ->
      completion c (Documented.collectCoverage wd testFile testName) s
      = Some (Ok {[ "testKey" := VString (Documented.testKey wd testFile testName);
                    "coveredFiles" := VStrings [] ]})).
Proof.
  intros Hr Hreply.
  assert (Documented.coveredFiles wd (l1 ++ r :: l2)
          = Documented.coveredFiles wd (l1 ++ l2)) as Hsame.
  { unfold Documented.coveredFiles.
    rewrite !map_app, !filter_app. simpl.
    rewrite filter_cons_False; [done|].
    by rewrite filter_unparseable. }
  assert (completion c (Documented.collectCoverage wd testFile testName) s
          = Some (Documented.collectCoverage_then wd testFile testName (l1 ++ l2)))
    as Hrun.
  { unfold completion. rewrite run_collectCoverage, Hreply. simpl.
    unfold Documented.collectCoverage_then. by rewrite Hsame. }
  split_and!; [done..|].
  intros Hall. rewrite Hrun. unfold Documented.collectCoverage_then.
  assert (Documented.coveredFiles wd (l1 ++ l2) = Ok []) as ->; [|done].
  clear Hrun Hsame Hreply. induction Hall as [|r' l Hr' Hall IH]; [done|].
  apply coveredFiles_cons. right. by rewrite filter_unparseable.
Qed.

End Reduction.

(** ** The result of [collectCoverage] *)

Section Result.
Context `{UrlApi, PathApi}.

(** C2.  When the snapshot request is acknowledged and the covered files are
    computed, [collectCoverage] returns a result whose test key is the path
    of [testFile] relative to [wd], then [::], then [testName] as it is, then
    [|run]: the field [testKey] of the documented copy, the only key of the
    undocumented one. *)
Theorem testKey_relative_name_run (c : Collaborator) (s s' : cstate c)
    (wd testFile testName : string) (reply : Reply) (files : list string) :
  respond c s take_snapshot = (s', Acknowledged reply) ->
  Documented.coveredFiles wd (result reply) = Ok files ->
  let key := relative wd testFile +:+ "::" +:+ testName +:+ "|run" in
  Documented.testKey wd testFile testName = key
  /\ Undocumented.testKey wd testFile testName = key
  /\ (exists obj,
        completion c (Documented.collectCoverage wd testFile testName) s
        = Some (Ok obj)
        /\ obj !! "testKey" = Some (VString key))
  /\ (exists obj,
        completion c (Undocumented.collectCoverage wd testFile testName) s
        = Some (Ok obj)
        /\ dom obj = {[ key ]}).
Proof.
  intros Hreply Hfiles key. split_and!; [done..| |]; unfold completion.
  all: rewrite ?run_collectCoverage, ?run_collectCoverage_undocumented, Hreply.
  all: unfold Documented.collectCoverage_then, Undocumented.collectCoverage_then.
  all: change (Undocumented.coveredFiles wd (result reply))
         with (Documented.coveredFiles wd (result reply)).
  all: simpl; rewrite Hfiles; simpl; eexists; (split; [done|]).
  - by rewrite lookup_insert_eq.
  - by rewrite dom_singleton_L.
Qed.

(** C4, amended.  When the snapshot request is acknowledged and the covered
    files are computed, the documented copy of [collectCoverage] returns an
    object with exactly the two fields [testKey], a string, and
    [coveredFiles], a sequence of strings; the undocumented copy returns an
    object with exactly one field, named by the test key and holding the
    covered files. *)
Theorem collectCoverage_result_fields (c : Collaborator) (s s' : cstate c)
    (wd testFile testName : string) (reply : Reply) (files : list string) :
  respond c s take_snapshot = (s', Acknowledged reply) ->
  Documented.coveredFiles wd (result reply) = Ok files ->
  (exists obj key,
     completion c (Documented.collectCoverage wd testFile testName) s
     = Some (Ok obj)
     /\ dom obj = {[ "testKey"; "coveredFiles" ]}
     /\ obj !! "testKey" = Some (VString key)
     /\ obj !! "coveredFiles" = Some (VStrings files))
  /\ (exists obj key,
        completion c (Undocumented.collectCoverage wd testFile testName) s
        = Some (Ok obj)
        /\ key = Undocumented.testKey wd testFile testName
        /\ dom obj = {[ key ]}
        /\ obj !! key = Some (VStrings files)).
Proof.
  intros Hreply Hfiles. unfold completion.
  rewrite run_collectCoverage, run_collectCoverage_undocumented, Hreply. simpl.
  unfold Documented.collectCoverage_then, Undocumented.collectCoverage_then.
  change (Undocumented.coveredFiles wd (result reply))
    with (Documented.coveredFiles wd (result reply)).
  rewrite Hfiles. simpl. split; eexists _, _; (split; [done|]).
  - rewrite dom_insert_L, dom_singleton_L, lookup_insert_eq.
    by rewrite lookup_insert_ne, lookup_singleton_eq.
  - by rewrite dom_singleton_L, lookup_singleton_eq.
Qed.

(** C10, amended.  On every input the two copies of [collectCoverage] send the
    same request and leave the collaborator in the same state; they fail
    together, with the same error, or stay pending together, and when they
    return they have computed the same test key and the same covered files,
    which the undocumented copy returns as the one-entry object
    [{ key: files }] and the documented copy as
    [{ testKey: key, coveredFiles: files }]: two different objects. *)
Theorem collectCoverage_copies_differ_in_shape (c : Collaborator) (s : cstate c)
    (wd testFile testName : string) :
  let old := run c (Undocumented.collectCoverage wd testFile testName) s in
  let new := run c (Documented.collectCoverage wd testFile testName) s in
  old.1 = new.1
  /\ match old.2, new.2 with
     | Some (Ok o1), Some (Ok o2) =>
         exists key files,
           key = Documented.testKey wd testFile testName
           /\ o1 = {[ key := VStrings files ]}
           /\ o2 = {[ "testKey" := VString key; "coveredFiles" := VStrings files ]}
           /\ o1 <> o2
     | Some (Err e1), Some (Err e2) => e1 = e2
     | None, None => True
     | _, _ => False
     end.
Proof.
  cbv zeta. rewrite run_collectCoverage, run_collectCoverage_undocumented.
  destruct (respond c s take_snapshot) as [s' [reply|e|]]; simpl; [|done..].
  split; [done|].
  unfold Documented.collectCoverage_then, Undocumented.collectCoverage_then.
  change (Undocumented.coveredFiles wd (result reply))
    with (Documented.coveredFiles wd (result reply)).
  destruct (Documented.coveredFiles wd (result reply)) as [files|e]; simpl; [|done].
  eexists _, _. split_and!; [done..|].
  intros Heq%(f_equal size). revert Heq.
  rewrite map_size_singleton, map_size_insert_None, map_size_singleton; [done|].
  by rewrite lookup_singleton_ne.
Qed.

End Result.

(** ** Files outside the working directory *)

Lemma strip_common_split (from to up down : list string) :
  Posix.strip_common from to = (up, down) ->
  exists common, from = common ++ up /\ to = common ++ down.
Proof.
  revert to. induction from as [|f from IH]; intros to; simpl.
  - intros [= <- <-]. by exists [].
  - destruct to as [|t to].
    + intros [= <- <-]. by exists [].
    + destruct (String.eqb_spec f t) as [->|Hne].
      * intros (common & -> & ->)%IH. by exists (t :: common).
      * intros [= <- <-]. by exists [].
Qed.

(** Climbing at least one level gives [..] itself or a path that starts
    with [../]. *)
Lemma join_climb (n : nat) (down : list string) :
  let e := join "/" (replicate (S n) ".." ++ down) in
  e = ".." \/ startsWith e "../" = true.
Proof.
  unfold join, startsWith. simpl.
  destruct (replicate n ".." ++ down) as [|seg segs]; [by left|right].
  apply prefix_true_iff. by eexists.
Qed.

Lemma relative_outside (cwd wd p : string) :
  outside_tree cwd wd p ->
  Posix.relative cwd wd p = ".."
  \/ startsWith (Posix.relative cwd wd p) "../" = true.
Proof.
  unfold outside_tree, Posix.relative. intros Hout.
  destruct (Posix.strip_common _ _) as [up down] eqn:Hstrip.
  apply strip_common_split in Hstrip as (common & Hwd & Hp).
  destruct up as [|seg up]; [|apply join_climb].
  destruct Hout. rewrite Hwd, Hp, app_nil_r. by apply prefix_app_r.
Qed.

Section Outside.
Context `{UrlApi}.
Variable cwd : string.

(** C6, amended.  With [path.relative] as on POSIX, a record that passes the
    filter and whose file path lies outside the tree of [wd] still has its
    entry in the result of [coveredFiles] when [coveredFiles] returns, in
    both copies of the class, and the entry is [..] itself (the path is the
    parent of [wd]) or starts with [../]. *)
Theorem outside_file_is_kept (wd : string) (snapshot : list V8ScriptCoverage)
    (out : list string) (r : V8ScriptCoverage) (p : string) :
  @Documented.coveredFiles _ (Posix.pathApi cwd) wd snapshot = Ok out ->
  r ∈ snapshot ->
  passes_filter r ->
  fileURLToPath (url r) = Ok p ->
  outside_tree cwd wd p ->
  let e := Posix.relative cwd wd p in
  e ∈ out
  /\ (e = ".." \/ startsWith e "../" = true)
  /\ @Undocumented.coveredFiles _ (Posix.pathApi cwd) wd snapshot = Ok out.
Proof.
  intros Hout (l1 & l2 & ->)%list_elem_of_split Hr%filter_true_iff Hp Houtside e.
  split_and!; [|by apply relative_outside|done].
  apply coveredFiles_app in Hout as (o1 & o' & _ & Hout & ->).
  apply coveredFiles_cons in Hout
    as [(_ & e' & o2 & (p' & Hp' & ->) & _ & ->) | [Hr' _]]; [|congruence].
  rewrite Hp in Hp'. injection Hp' as <-.
  apply elem_of_app. right. apply list_elem_of_here.
Qed.

End Outside.

(** ** The scenarios, evaluated *)

(** The snapshot of the scenario reduces to the files of the repository, in
    the order of the snapshot, with the file outside [/repo] and the file
    reported twice. *)
Example coveredFiles_repo :
  @Documented.coveredFiles Posix.urlApi repo "/repo" repo_snapshot = Ok repo_files.
Proof. reflexivity. Qed.

(** The test of the repository: the key of test [foo] of [foo.ts]. *)
Example collectCoverage_repo :
  completion (steady repo_snapshot)
    (@Documented.collectCoverage Posix.urlApi repo "/repo" "foo.ts" "foo") ()
  = Some (Ok {[ "testKey" := VString "foo.ts::foo|run";
                "coveredFiles" := VStrings repo_files ]}).
Proof. reflexivity. Qed.

(** [connect] followed by [disconnect] against a collaborator that
    acknowledges everything. *)
Example connect_then_disconnect :
  run (steady []) (Documented.connect;; Documented.disconnect) ()
  = ([ Issued open_connection; Completed open_connection (Ok (mkReply []));
       Issued enable_profiling; Completed enable_profiling (Ok (mkReply []));
       Issued (start_continuous_coverage
                 (Some {[ "callCount" := VBool true; "detailed" := VBool false ]}));
       Completed (start_continuous_coverage
                    (Some {[ "callCount" := VBool true; "detailed" := VBool false ]}))
         (Ok (mkReply []));
       Issued stop_continuous_coverage;
       Completed stop_continuous_coverage (Ok (mkReply []));
       Issued disable_profiling; Completed disable_profiling (Ok (mkReply []));
       Issued close_connection; Completed close_connection (Ok (mkReply [])) ],
     (), Some (Ok ())).
Proof. reflexivity. Qed.

(** When the profiler cannot be enabled, [connect] stops there: coverage is
    never started. *)
Example connect_enable_refused :
  run (stubborn (Refused "not enabled")) Documented.connect ()
  = ([ Issued open_connection; Completed open_connection (Ok (mkReply []));
       Issued enable_profiling; Completed enable_profiling (Err "not enabled") ],
     (), Some (Err "not enabled"))
  /\ run (stubborn Unanswered) Documented.connect ()
     = ([ Issued open_connection; Completed open_connection (Ok (mkReply []));
          Issued enable_profiling ],
        (), None).
Proof. split; reflexivity. Qed.

(** C1 as stated fails.  The url of [backup_script] can be parsed, has the
    scheme [file] and no path segment equal to [node_modules], and yet the
    record contributes nothing.  The url of [remote_script] meets the three
    conditions too, and [coveredFiles] throws on it instead of returning an
    entry. *)
Lemma substring_node_modules_is_excluded :
  (@has_no_node_modules_segment Posix.urlApi backup_script
   /\ @Documented.coveredFiles Posix.urlApi repo "/repo" [backup_script] = Ok [])
  /\ (@has_no_node_modules_segment Posix.urlApi remote_script
      /\ @Documented.coveredFiles Posix.urlApi repo "/repo" [remote_script]
         = Err "ERR_INVALID_FILE_URL_HOST").
Proof.
  split; (split; [|reflexivity]).
  all: eexists; split_and!; [reflexivity..|].
  all: by apply (bool_decide_unpack _).
Qed.

Lemma coveredFiles_entry_iff_filter_witness :
  (exists contributions : list (list string),
     repo_files = concat contributions
     /\ Forall2 (fun r entries =>
          (@passes_filter Posix.urlApi r
           /\ exists e, @entry_of Posix.urlApi repo "/repo" r e /\ entries = [e])
          \/ (~ @passes_filter Posix.urlApi r /\ entries = []))
        repo_snapshot contributions)
  /\ (forall r, @passes_filter Posix.urlApi r -> @has_no_node_modules_segment Posix.urlApi r)
  /\ @Undocumented.coveredFiles Posix.urlApi repo "/repo" repo_snapshot = Ok repo_files.
Proof.
  apply (@coveredFiles_entry_iff_filter Posix.urlApi repo "/repo" repo_snapshot).
  reflexivity.
Defined.

Lemma coveredFiles_order_and_duplicates_witness :
  (exists origins,
     origins = filter (fun r => @Documented.coveredFiles_filter Posix.urlApi (url r) = true)
                 repo_snapshot
     /\ origins `sublist_of` repo_snapshot
     /\ Forall2 (@entry_of Posix.urlApi repo "/repo") origins repo_files)
  /\ (forall l1 r1 l2 r2 l3,
        repo_snapshot = l1 ++ r1 :: l2 ++ r2 :: l3 ->
        @passes_filter Posix.urlApi r1 -> @passes_filter Posix.urlApi r2 ->
        exists o1 e1 o2 e2 o3,
          repo_files = o1 ++ e1 :: o2 ++ e2 :: o3
          /\ @entry_of Posix.urlApi repo "/repo" r1 e1
          /\ @entry_of Posix.urlApi repo "/repo" r2 e2
          /\ @Documented.coveredFiles Posix.urlApi repo "/repo" l1 = Ok o1
          /\ @Documented.coveredFiles Posix.urlApi repo "/repo" l2 = Ok o2
          /\ @Documented.coveredFiles Posix.urlApi repo "/repo" l3 = Ok o3
          /\ (Posix.fileURLToPath (url r1) = Posix.fileURLToPath (url r2) -> e1 = e2)).
Proof.
  apply (@coveredFiles_order_and_duplicates Posix.urlApi repo "/repo" repo_snapshot).
  reflexivity.
Defined.

Lemma unparseable_url_is_dropped_witness :
  let l1 := take 3 repo_snapshot in
  let r := mkScript "4" "" [] in
  let l2 := drop 4 repo_snapshot in
  @Documented.coveredFiles Posix.urlApi repo "/repo" (l1 ++ r :: l2)
  = @Documented.coveredFiles Posix.urlApi repo "/repo" (l1 ++ l2)
  /\ completion (steady repo_snapshot)
       (@Documented.collectCoverage Posix.urlApi repo "/repo" "foo.ts" "foo") ()
     = Some (@Documented.collectCoverage_then Posix.urlApi repo "/repo" "foo.ts" "foo"
               (l1 ++ l2))
  /\ (Forall (fun r' => Posix.URL_parse (url r') = None) (l1 ++ l2) ->
      completion (steady repo_snapshot)
        (@Documented.collectCoverage Posix.urlApi repo "/repo" "foo.ts" "foo") ()
      = Some (Ok {[ "testKey" := VString (@Documented.testKey repo "/repo" "foo.ts" "foo");
                    "coveredFiles" := VStrings [] ]})).
Proof.
  apply (@unparseable_url_is_dropped Posix.urlApi repo (steady repo_snapshot) () ());
    reflexivity.
Defined.

Lemma testKey_relative_name_run_witness :
  @Documented.testKey repo "/repo" "foo.ts" "foo" = "foo.ts::foo|run"
  /\ @Undocumented.testKey repo "/repo" "foo.ts" "foo" = "foo.ts::foo|run"
  /\ (exists obj,
        completion (steady repo_snapshot)
          (@Documented.collectCoverage Posix.urlApi repo "/repo" "foo.ts" "foo") ()
        = Some (Ok obj)
        /\ obj !! "testKey" = Some (VString "foo.ts::foo|run"))
  /\ (exists obj,
        completion (steady repo_snapshot)
          (@Undocumented.collectCoverage Posix.urlApi repo "/repo" "foo.ts" "foo") ()
        = Some (Ok obj)
        /\ dom obj = {[ "foo.ts::foo|run" ]}).
Proof.
  apply (@testKey_relative_name_run Posix.urlApi repo (steady repo_snapshot) () ()
           "/repo" "foo.ts" "foo" (mkReply repo_snapshot) repo_files);
    reflexivity.
Defined.

(** C4 as stated fails on the copy of lines 16-100: its result has one field,
    named by the test key, and neither [testKey] nor [coveredFiles]. *)
Lemma undocumented_result_is_keyed_by_test :
  exists obj,
    completion (steady repo_snapshot)
      (@Undocumented.collectCoverage Posix.urlApi repo "/repo" "foo.ts" "foo") ()
    = Some (Ok obj)
    /\ obj = {[ "foo.ts::foo|run" := VStrings repo_files ]}
    /\ size obj = 1
    /\ obj !! "testKey" = None
    /\ obj !! "coveredFiles" = None.
Proof. eexists. split_and!; reflexivity. Qed.

Lemma collectCoverage_result_fields_witness :
  (exists obj key,
     completion (steady repo_snapshot)
       (@Documented.collectCoverage Posix.urlApi repo "/repo" "foo.ts" "foo") ()
     = Some (Ok obj)
     /\ dom obj = {[ "testKey"; "coveredFiles" ]}
     /\ obj !! "testKey" = Some (VString key)
     /\ obj !! "coveredFiles" = Some (VStrings repo_files))
  /\ (exists obj key,
        completion (steady repo_snapshot)
          (@Undocumented.collectCoverage Posix.urlApi repo "/repo" "foo.ts" "foo") ()
        = Some (Ok obj)
        /\ key = @Undocumented.testKey repo "/repo" "foo.ts" "foo"
        /\ dom obj = {[ key ]}
        /\ obj !! key = Some (VStrings repo_files)).
Proof.
  apply (@collectCoverage_result_fields Posix.urlApi repo (steady repo_snapshot) () ()
           "/repo" "foo.ts" "foo" (mkReply repo_snapshot) repo_files);
    reflexivity.
Defined.

(** C10 as stated fails: on the scenario of the repository's test the two
    copies return different objects. *)
Lemma copies_return_different_objects :
  exists o1 o2,
    completion (steady repo_snapshot)
      (@Undocumented.collectCoverage Posix.urlApi repo "/repo" "foo.ts" "foo") ()
    = Some (Ok o1)
    /\ completion (steady repo_snapshot)
         (@Documented.collectCoverage Posix.urlApi repo "/repo" "foo.ts" "foo") ()
       = Some (Ok o2)
    /\ o1 !! "testKey" = None
    /\ o2 !! "testKey" = Some (VString "foo.ts::foo|run")
    /\ o1 <> o2.
Proof.
  eexists _, _. split_and!; [reflexivity..|].
  intros Heq%(f_equal (fun o : object => o !! "testKey")). by vm_compute in Heq.
Qed.

(** C6 as stated fails: the url of [parent_script] passes the filter, its path
    [/repo] lies outside the tree of [/repo/sub], and its entry is [..], which
    does not start with [../]. *)
Lemma parent_entry_has_no_slash :
  @passes_filter Posix.urlApi parent_script
  /\ Posix.fileURLToPath (url parent_script) = Ok "/repo"
  /\ outside_tree "/" "/repo/sub" "/repo"
  /\ @Documented.coveredFiles Posix.urlApi (Posix.pathApi "/") "/repo/sub" [parent_script]
     = Ok [ ".." ]
  /\ startsWith ".." "../" = false.
Proof.
  split_and!; try reflexivity.
  - apply (@filter_true_iff Posix.urlApi). reflexivity.
  - unfold outside_tree. vm_compute Posix.resolve_segments.
    intros [k Hk]. discriminate.
Qed.

Lemma outside_file_is_kept_witness :
  "../other/lib.js" ∈ repo_files
  /\ ("../other/lib.js" = ".." \/ startsWith "../other/lib.js" "../" = true)
  /\ @Undocumented.coveredFiles Posix.urlApi repo "/repo" repo_snapshot = Ok repo_files.
Proof.
  apply (@outside_file_is_kept Posix.urlApi "/repo" "/repo" repo_snapshot repo_files
           (mkScript "7" "file:///other/lib.js" []) "/other/lib.js").
  - reflexivity.
  - do 6 apply list_elem_of_further. apply list_elem_of_here.
  - apply (@filter_true_iff Posix.urlApi). reflexivity.
  - reflexivity.
  - unfold outside_tree. vm_compute Posix.resolve_segments.
    intros [k Hk]. discriminate.
Defined.

(** * Further properties of the code *)

(** ** How [coveredFiles] fails, returns and composes *)

Section MoreReduction.
Context `{UrlApi, PathApi}.

Lemma coveredFiles_cons_eq (wd : string) (r : V8ScriptCoverage)
    (snapshot : list V8ScriptCoverage) :
  Documented.coveredFiles wd (r :: snapshot) =
    if Documented.coveredFiles_filter (url r)
    then p ← fileURLToPath (url r);
         rest ← Documented.coveredFiles wd snapshot;
         mret (relative wd p :: rest)
    else Documented.coveredFiles wd snapshot.
Proof.
  unfold Documented.coveredFiles. simpl.
  destruct (Documented.coveredFiles_filter (url r)) eqn:Hr.
  - rewrite filter_cons_True by done. simpl.
    by destruct (fileURLToPath (url r)).
  - by rewrite filter_cons_False by (by rewrite Hr).
Qed.

(** X1.  [coveredFiles] of two snapshots put one after the other is
    [coveredFiles] of the first followed by [coveredFiles] of the second; it
    throws what the first throws, and otherwise what the second throws. *)
Theorem coveredFiles_concat (wd : string) (first second : list V8ScriptCoverage) :
  Documented.coveredFiles wd (first ++ second) =
    o1 ← Documented.coveredFiles wd first;
    o2 ← Documented.coveredFiles wd second;
    mret (o1 ++ o2).
Proof.
  induction first as [|r first IH].
  - rewrite app_nil_l, coveredFiles_nil. simpl.
    by destruct (Documented.coveredFiles wd second).
  - rewrite <-app_comm_cons, !coveredFiles_cons_eq, IH.
    destruct (Documented.coveredFiles_filter (url r)); [|done].
    destruct (fileURLToPath (url r)) as [p|e]; simpl; [|done].
    destruct (Documented.coveredFiles wd first) as [o1|e]; simpl; [|done].
    by destruct (Documented.coveredFiles wd second).
Qed.

(** X2.  [coveredFiles] throws [e] exactly when [e] is what [fileURLToPath]
    throws on the first record that passes the filter and whose url it cannot
    convert; the records before it are all converted or skipped. *)
Theorem coveredFiles_throws_first_failure (wd : string)
    (snapshot : list V8ScriptCoverage) (e : exn) :
  Documented.coveredFiles wd snapshot = Err e <->
  exists before r after converted,
    snapshot = before ++ r :: after
    /\ Documented.coveredFiles wd before = Ok converted
    /\ passes_filter r
    /\ fileURLToPath (url r) = Err e.
Proof.
  split.
  - induction snapshot as [|r snapshot IH]; [done|].
    rewrite coveredFiles_cons_eq.
    destruct (Documented.coveredFiles_filter (url r)) eqn:Hr.
    + destruct (fileURLToPath (url r)) as [p|e0] eqn:Hp; simpl.
      * destruct (Documented.coveredFiles wd snapshot) as [rest|e0]; [done|].
        simpl. intros [= ->].
        destruct IH as (before & r' & after & converted & -> & Hb & Hr' & He);
          [done|].
        exists (r :: before), r', after, (relative wd p :: converted).
        split_and!; try done.
        by rewrite coveredFiles_cons_eq, Hr, Hp, Hb.
      * intros [= ->]. exists [], r, snapshot, [].
        split_and!; try done. by apply filter_true_iff.
    + intros (before & r' & after & converted & -> & Hb & Hr' & He)%IH.
      exists (r :: before), r', after, converted. split_and!; try done.
      by rewrite coveredFiles_cons_eq, Hr.
  - intros (before & r & after & converted & -> & Hb & Hr%filter_true_iff & He).
    revert converted Hb. induction before as [|x before IH]; intros converted.
    + intros _. simpl. by rewrite coveredFiles_cons_eq, Hr, He.
    + rewrite <-app_comm_cons, !coveredFiles_cons_eq.
      destruct (Documented.coveredFiles_filter (url x)); [|by apply IH].
      destruct (fileURLToPath (url x)) as [p|e0]; simpl; [|done].
      destruct (Documented.coveredFiles wd before) as [o|e0] eqn:Hb; [|done].
      by rewrite (IH o).
Qed.

(** X3.  [coveredFiles] returns exactly when [fileURLToPath] converts the url
    of every record that passes the filter; it then returns one entry for
    each of these records, so never more entries than records. *)
Theorem coveredFiles_returns_iff (wd : string) (snapshot : list V8ScriptCoverage) :
  ((exists out, Documented.coveredFiles wd snapshot = Ok out) <->
   Forall (fun r => passes_filter r -> exists p, fileURLToPath (url r) = Ok p)
     snapshot)
  /\ (forall out, Documented.coveredFiles wd snapshot = Ok out ->
        length out
        = length (filter (fun r => Documented.coveredFiles_filter (url r) = true)
                    snapshot)
        /\ length out <= length snapshot).
Proof.
  split.
  - induction snapshot as [|r snapshot IH].
    + split; [constructor | by exists []].
    + rewrite Forall_cons, <-IH, coveredFiles_cons_eq, <-filter_true_iff.
      destruct (Documented.coveredFiles_filter (url r)).
      * destruct (fileURLToPath (url r)) as [p|e]; simpl.
        -- destruct (Documented.coveredFiles wd snapshot) as [rest|e]; simpl.
           ++ split; [intros _|intros _; by eexists].
              split; [by exists p | by exists rest].
           ++ split; [by intros [out ?] | by intros [_ [out ?]]].
        -- split; [by intros [out ?]|]. intros [Hp _].
           by destruct (Hp eq_refl).
      * split; [intros Hout; by split | by intros [_ Hout]].
  - intros out Hout%coveredFiles_entries%Forall2_length.
    rewrite <-Hout. split; [done|]. apply length_filter.
Qed.

(** X4.  [coveredFiles] returns the empty list exactly when no record of the
    snapshot passes the filter, as for the empty snapshot. *)
Theorem coveredFiles_empty_iff (wd : string) (snapshot : list V8ScriptCoverage) :
  Documented.coveredFiles wd snapshot = Ok [] <->
  Forall (fun r => ~ passes_filter r) snapshot.
Proof.
  induction snapshot as [|r snapshot IH].
  - split; [constructor | done].
  - rewrite Forall_cons, <-IH, coveredFiles_cons_eq, <-filter_true_iff.
    destruct (Documented.coveredFiles_filter (url r)).
    + split; [|by intros [[] _]].
      destruct (fileURLToPath (url r)); simpl; [|done].
      by destruct (Documented.coveredFiles wd snapshot).
    + split; [intros Hout; by split | by intros [_ Hout]].
Qed.

(** X5.  The working directory only changes how the paths are written: there
    are file paths, or an error, fixed by the snapshot alone, and for every
    [wd] [coveredFiles] returns these paths each made relative to [wd], or
    throws that error. *)
Theorem coveredFiles_wd_only_relativises (snapshot : list V8ScriptCoverage) :
  exists paths : Result (list string),
    forall wd, Documented.coveredFiles wd snapshot = map (relative wd) <$> paths.
Proof.
  exists (mapM fileURLToPath
            (filter (fun s => Documented.coveredFiles_filter s = true)
               (map url snapshot))).
  intros wd. unfold Documented.coveredFiles.
  induction (filter _ _) as [|u urls IH]; [done|]. simpl.
  destruct (fileURLToPath u) as [p|e]; simpl; [|done].
  rewrite IH. by destruct (mapM fileURLToPath urls).
Qed.

End MoreReduction.

(** ** How the methods settle *)

Section MoreRuns.
Context `{UrlApi, PathApi}.

Lemma resetCoverage_run (c : Collaborator) (s : cstate c) :
  (forall reply s', respond c s take_snapshot = (s', Acknowledged reply) ->
     run c Documented.resetCoverage s
     = ([Issued take_snapshot; Completed take_snapshot (Ok reply)], s',
        Some (Ok ())))
  /\ (forall e s', respond c s take_snapshot = (s', Refused e) ->
        run c Documented.resetCoverage s
        = ([Issued take_snapshot; Completed take_snapshot (Err e)], s',
           Some (Err e)))
  /\ (forall s', respond c s take_snapshot = (s', Unanswered) ->
        run c Documented.resetCoverage s = ([Issued take_snapshot], s', None)).
Proof.
  unfold Documented.resetCoverage, Documented.takePreciseCoverage, post.
  unfold take_snapshot. simpl.
  destruct (respond c s _) as [s1 [v|e|]]; simpl.
  all: split_and!; by intros; simplify_eq.
Qed.

(** X6.  Whatever its arguments and whatever the collaborator answers,
    [collectCoverage] sends the snapshot request and nothing else.  It
    returns the result built from the acknowledged snapshot when the covered
    files are computed; it throws either the error of the rejected request or
    the error [coveredFiles] throws on the acknowledged snapshot; it stays
    pending exactly when the request is never answered. *)
Theorem collectCoverage_one_request (c : Collaborator) (s : cstate c)
    (wd testFile testName : string) :
  let m := Documented.collectCoverage wd testFile testName in
  let answer := (respond c s take_snapshot).2 in
  requests (trace c m s) = [take_snapshot]
  /\ (run c m s).1.2 = (respond c s take_snapshot).1
  /\ (forall obj, completion c m s = Some (Ok obj) <->
        exists reply files,
          answer = Acknowledged reply
          /\ Documented.coveredFiles wd (result reply) = Ok files
          /\ obj = {[ "testKey" := VString (Documented.testKey wd testFile testName);
                      "coveredFiles" := VStrings files ]})
  /\ (forall e, completion c m s = Some (Err e) <->
        answer = Refused e
        \/ exists reply,
             answer = Acknowledged reply
             /\ Documented.coveredFiles wd (result reply) = Err e)
  /\ (completion c m s = None <-> answer = Unanswered).
Proof.
  unfold trace, completion. cbv zeta. rewrite run_collectCoverage.
  destruct (respond c s take_snapshot) as [s' [reply|e0|]]; simpl.
  - unfold Documented.collectCoverage_then.
    destruct (Documented.coveredFiles wd (result reply)) as [files|e0] eqn:Hfiles;
      simpl.
    + split_and!; try done.
      * intros obj. split.
        -- intros [= <-]. by exists reply, files.
        -- intros (reply' & files' & [= <-] & Hfiles' & ->).
           rewrite Hfiles in Hfiles'. by injection Hfiles' as <-.
      * intros e. split; [done|].
        intros [|(reply' & [= <-] & ?)]; congruence.
    + split_and!; try done.
      * intros obj. split; [done|].
        intros (reply' & files & [= <-] & ? & _). congruence.
      * intros e. split.
        -- intros [= ->]. right. by exists reply.
        -- intros [|(reply' & [= <-] & ?)]; congruence.
  - split_and!; try done.
    + intros obj. split; [done|]. by intros (reply & files & ? & _).
    + intros e. split.
      * intros [= ->]. by left.
      * by intros [[= ->]|(reply & ? & _)].
  - split_and!; try done.
    + intros obj. split; [done|]. by intros (reply & files & ? & _).
    + intros e. split; [done|]. by intros [|(reply & ? & _)].
Qed.

(** X7.  Resetting and then collecting sends two snapshot requests, the
    second one only once the first is acknowledged, and the result is built
    from the second snapshot alone: what the first request returned is not
    in it.  When the first request is rejected or never answered, nothing is
    collected. *)
Theorem reset_then_collect (c : Collaborator) (s : cstate c)
    (wd testFile testName : string) :
  let m := coverage_of_test wd testFile testName in
  (forall s1 discarded s2 reply,
     respond c s take_snapshot = (s1, Acknowledged discarded) ->
     respond c s1 take_snapshot = (s2, Acknowledged reply) ->
     run c m s
     = ([ Issued take_snapshot; Completed take_snapshot (Ok discarded);
          Issued take_snapshot; Completed take_snapshot (Ok reply) ],
        s2,
        Some (Documented.collectCoverage_then wd testFile testName (result reply))))
  /\ (forall s1 e,
        respond c s take_snapshot = (s1, Refused e) ->
        run c m s
        = ([ Issued take_snapshot; Completed take_snapshot (Err e) ], s1,
           Some (Err e)))
  /\ (forall s1,
        respond c s take_snapshot = (s1, Unanswered) ->
        run c m s = ([ Issued take_snapshot ], s1, None)).
Proof.
  cbv zeta. unfold coverage_of_test. rewrite run_then.
  destruct (resetCoverage_run c s) as (Hack & Hrefused & Hsilent).
  split_and!.
  - intros s1 discarded s2 reply H1 H2.
    rewrite (Hack _ _ H1), run_collectCoverage, H2. done.
  - intros s1 e H1. by rewrite (Hrefused _ _ H1).
  - intros s1 H1. by rewrite (Hsilent _ H1).
Qed.

End MoreRuns.

(** The lifecycle methods await their requests one after the other and do
    nothing else: no branch, no handler, no second attempt. *)
Lemma lifecycle_scripts :
  Documented.connect
  = script [ open_connection; enable_profiling;
             start_continuous_coverage
               (Some {[ "callCount" := VBool true; "detailed" := VBool false ]}) ]
  /\ Documented.disconnect
     = script [ stop_continuous_coverage; disable_profiling; close_connection ]
  /\ Documented.resetCoverage = script [ take_snapshot ].
Proof. done. Qed.

Lemma script_settles (steps : list Request) :
  settles_at_first_failure (script steps) steps.
Proof.
  unfold settles_at_first_failure, completion.
  induction steps as [|r steps IH]; intros c s.
  - simpl. split_and!; [done|..].
    + intros e. split; [done|]. by intros ([|??] & ? & ? & ? & _).
    + split; [done|]. by intros ([|??] & ? & ? & ? & _).
  - simpl. destruct (respond c s r) as [s' [v|e0|]] eqn:Hr.
    + destruct (IH c s') as (Hok & Herr & Hnone).
      destruct (run c (script steps) s') as [[t s''] res]. simpl in *.
      split_and!; [done|..].
      * intros e. rewrite Herr. split.
        -- intros (acked & r' & rest & -> & Hacked & Hrefused).
           exists (r :: acked), r', rest. split_and!; [done|..]; simpl;
             by rewrite Hr.
        -- intros ([|r0 acked] & r' & rest & [= <- Hsteps] & Hacked & Hrefused);
             simpl in *; rewrite Hr in *; [done|].
           by exists acked, r', rest.
      * rewrite Hnone. split.
        -- intros (acked & r' & rest & -> & Hacked & Hsilent).
           exists (r :: acked), r', rest. split_and!; [done|..]; simpl;
             by rewrite Hr.
        -- intros ([|r0 acked] & r' & rest & [= <- Hsteps] & Hacked & Hsilent);
             simpl in *; rewrite Hr in *; [done|].
           by exists acked, r', rest.
    + simpl. split_and!; [done|..].
      * intros e. split.
        -- intros [= <-]. exists [], r, steps. simpl. by rewrite Hr.
        -- intros ([|r0 acked] & r' & rest & [= <- Hsteps] & Hacked & Hrefused);
             simpl in *; rewrite Hr in *; [|done].
           simpl in Hrefused. congruence.
      * split; [done|].
        intros ([|r0 acked] & r' & rest & [= <- Hsteps] & Hacked & Hsilent);
          simpl in *; by rewrite Hr in *.
    + simpl. split_and!; [done|..].
      * intros e. split; [done|].
        intros ([|r0 acked] & r' & rest & [= <- Hsteps] & Hacked & Hrefused);
          simpl in *; by rewrite Hr in *.
      * split; [|done]. intros _. exists [], r, steps. simpl. by rewrite Hr.
Qed.

(** X8.  [connect], [disconnect] and [resetCoverage] return exactly when the
    collaborator acknowledges all their requests; they throw exactly the
    error of the first request it rejects, unchanged, and stay pending on the
    first request it never answers; no request is tried again or skipped. *)
Theorem lifecycle_settles_at_first_failure :
  settles_at_first_failure Documented.connect
    [ open_connection; enable_profiling;
      start_continuous_coverage
        (Some {[ "callCount" := VBool true; "detailed" := VBool false ]}) ]
  /\ settles_at_first_failure Documented.disconnect
       [ stop_continuous_coverage; disable_profiling; close_connection ]
  /\ settles_at_first_failure Documented.resetCoverage [ take_snapshot ].
Proof.
  destruct lifecycle_scripts as (-> & -> & ->).
  split_and!; apply script_settles.
Qed.

(** An engine with two snapshots in store: the reset takes the first, the
    collection reports the second. *)
Example reset_then_collect_queued :
  run queued
    (@coverage_of_test Posix.urlApi repo "/repo" "foo.ts" "foo")
    [ [ mkScript "0" "file:///repo/earlier.ts" [] ];
      [ mkScript "6" "file:///repo/test/fixtures/math.ts" [] ] ]
  = ([ Issued take_snapshot;
       Completed take_snapshot
         (Ok (mkReply [ mkScript "0" "file:///repo/earlier.ts" [] ]));
       Issued take_snapshot;
       Completed take_snapshot
         (Ok (mkReply [ mkScript "6" "file:///repo/test/fixtures/math.ts" [] ])) ],
     [],
     Some (Ok {[ "testKey" := VString "foo.ts::foo|run";
                 "coveredFiles" := VStrings [ "test/fixtures/math.ts" ] ]})).
Proof. reflexivity. Qed.

(** ** The test key *)

Lemma string_app_assoc (a b c : string) : (a +:+ b) +:+ c = a +:+ b +:+ c.
Proof. induction a as [|x a IH]; simpl; [done | by rewrite IH]. Qed.

Lemma string_app_length (a b : string) :
  String.length (a +:+ b) = String.length a + String.length b.
Proof. induction a as [|x a IH]; simpl; [done | by rewrite IH]. Qed.

Lemma string_app_inj_r (a b t : string) : a +:+ t = b +:+ t -> a = b.
Proof.
  revert b. induction a as [|x a IH]; intros [|y b]; simpl; try done.
  - intros Heq%(f_equal String.length). simpl in Heq.
    rewrite string_app_length in Heq. lia.
  - intros Heq%(f_equal String.length). simpl in Heq.
    rewrite string_app_length in Heq. lia.
  - intros [= -> Heq]. by rewrite (IH b).
Qed.

Section TestKey.
Context `{PathApi}.

(** X9.  For one working directory and one test file, two test names give
    the same test key only when they are the same name: the tests of a file
    never share a key. *)
Theorem testKey_separates_names (wd testFile name1 name2 : string) :
  Documented.testKey wd testFile name1 = Documented.testKey wd testFile name2
  <-> name1 = name2.
Proof.
  split; [|by intros ->]. unfold Documented.testKey.
  intros Heq%(inj (String.app _))%(inj (String.app _)).
  by eapply string_app_inj_r.
Qed.

(** X10.  The test key does not tell where the file path ends and the test
    name begins: when the relative path of one file is that of another
    followed by [::] and some text, a test of the first file has the key of
    the test of the second whose name starts with that text and [::]. *)
Theorem testKey_separator_is_ambiguous (wd file1 file2 text name : string) :
  relative wd file2 = relative wd file1 +:+ "::" +:+ text ->
  Documented.testKey wd file2 name
  = Documented.testKey wd file1 (text +:+ "::" +:+ name).
Proof.
  intros Hrel. unfold Documented.testKey.
  by rewrite Hrel, !string_app_assoc.
Qed.

End TestKey.

Lemma testKey_separator_is_ambiguous_witness :
  @Documented.testKey repo "/repo" "a::b" "c"
  = @Documented.testKey repo "/repo" "a" ("b" +:+ "::" +:+ "c").
Proof.
  apply (@testKey_separator_is_ambiguous repo "/repo" "a" "a::b" "b" "c").
  reflexivity.
Defined.

(** ** Paths below the working directory, with [node:path] as on POSIX *)

Lemma join_split (s : string) : join "/" (split "/" s) = s.
Proof.
  unfold join. induction s as [|c s IH]; [done|]. cbn [split].
  destruct (split_head "/" s) as (seg & segs & b & Hsplit & _).
  rewrite Hsplit in IH |- *. destruct (Ascii.eqb_spec c "/") as [->|_].
  - change (String.concat "/" ("" :: seg :: segs))
      with ("/" +:+ String.concat "/" (seg :: segs)).
    by rewrite IH.
  - destruct segs; simpl in *; by rewrite IH.
Qed.

Lemma eqb_plain (seg : string) :
  plain_segment seg ->
  String.eqb seg "" = false /\ String.eqb seg "." = false
  /\ String.eqb seg ".." = false.
Proof. intros (? & ? & ?). by rewrite !String.eqb_neq. Qed.

Lemma normalize_onto_app (acc l1 l2 : list string) :
  Posix.normalize_onto acc (l1 ++ l2)
  = Posix.normalize_onto (Posix.normalize_onto acc l1) l2.
Proof.
  revert acc. induction l1 as [|seg l1 IH]; intros acc; simpl; [done|].
  by repeat case_match.
Qed.

Lemma normalize_onto_plain (acc segs : list string) :
  Forall plain_segment segs ->
  Posix.normalize_onto acc segs = rev segs ++ acc.
Proof.
  intros Hsegs. revert acc.
  induction Hsegs as [|seg segs Hseg _ IH]; intros acc; simpl; [done|].
  destruct (eqb_plain seg Hseg) as (-> & -> & ->). simpl.
  by rewrite IH, <-app_assoc.
Qed.

Lemma strip_common_app (common down : list string) :
  Posix.strip_common common (common ++ down) = ([], down).
Proof.
  induction common as [|seg common IH]; simpl; [by destruct down|].
  by rewrite String.eqb_refl.
Qed.

(** X11.  With [path.relative] as on POSIX and the working directory that of
    the process, the test key of a test file given by a relative path made
    of plain segments is that path as it is, then [::], the test name and
    [|run], as the tests of the repository expect for [foo.ts]. *)
Theorem testKey_of_relative_test_file (cwd testFile testName : string) :
  Posix.isAbsolute cwd = true ->
  Forall plain_segment (split "/" testFile) ->
  @Documented.testKey (Posix.pathApi cwd) cwd testFile testName
  = testFile +:+ "::" +:+ testName +:+ "|run".
Proof.
  intros Hcwd Hplain. unfold Documented.testKey. f_equal. simpl.
  unfold Posix.relative, Posix.resolve_segments. rewrite Hcwd.
  assert (Posix.isAbsolute testFile = false) as ->.
  { apply not_true_iff_false. unfold Posix.isAbsolute, startsWith.
    intros [b ->]%prefix_true_iff. simpl in Hplain.
    apply Forall_cons in Hplain as [(? & _) _]. done. }
  unfold Posix.normalize.
  rewrite normalize_onto_app, (normalize_onto_plain _ _ Hplain).
  rewrite rev_app_distr, rev_involutive, strip_common_app.
  apply join_split.
Qed.

Lemma testKey_of_relative_test_file_witness :
  @Documented.testKey (Posix.pathApi "/home/ci/project") "/home/ci/project"
    "test/integration.test.ts" "foo"
  = "test/integration.test.ts" +:+ "::" +:+ "foo" +:+ "|run".
Proof.
  apply testKey_of_relative_test_file; [reflexivity|].
  repeat constructor; done.
Defined.

Lemma split_slash_free (s : string) : Forall slash_free (split "/" s).
Proof.
  induction s as [|c s IH]; cbn [split].
  - constructor; [|done]. by intros [|??] ?.
  - destruct (Ascii.eqb_spec c "/") as [->|Hc].
    + constructor; [|done]. by intros [|??] ?.
    + destruct (split_head "/" s) as (seg & segs & _ & Hsplit & _).
      rewrite Hsplit in IH |- *.
      apply Forall_cons in IH as [Hseg Hsegs]. constructor; [|done].
      intros [|x a] b; simpl; intros [= ? Heq]; [done|].
      exact (Hseg a b Heq).
Qed.

Lemma normalize_onto_segments (acc segs : list string) :
  Forall (fun seg => plain_segment seg /\ slash_free seg) acc ->
  Forall slash_free segs ->
  Forall (fun seg => plain_segment seg /\ slash_free seg)
    (Posix.normalize_onto acc segs).
Proof.
  intros Hacc Hsegs. revert acc Hacc.
  induction Hsegs as [|seg segs Hseg _ IH]; intros acc Hacc; simpl; [done|].
  destruct (String.eqb_spec seg "") as [->|Hempty]; simpl; [by apply IH|].
  destruct (String.eqb_spec seg ".") as [->|Hdot]; simpl; [by apply IH|].
  destruct (String.eqb_spec seg "..") as [->|Hdotdot].
  - apply IH. destruct Hacc; [constructor | done].
  - apply IH. by constructor.
Qed.

Lemma resolve_segments_plain (cwd p : string) :
  Forall (fun seg => plain_segment seg /\ slash_free seg)
    (Posix.resolve_segments cwd p).
Proof.
  unfold Posix.resolve_segments, Posix.normalize.
  destruct (Posix.isAbsolute p); apply Forall_rev.
  all: apply normalize_onto_segments; [constructor|].
  all: rewrite ?Forall_app; auto using split_slash_free.
Qed.

(** A path of plain segments is neither [..] nor below [..]. *)
Lemma join_plain_not_climbing (below : list string) :
  Forall (fun seg => plain_segment seg /\ slash_free seg) below ->
  join "/" below <> ".." /\ startsWith (join "/" below) "../" = false.
Proof.
  unfold join, startsWith. rewrite <-not_true_iff_false, prefix_true_iff.
  destruct 1 as [|seg rest [(Hempty & Hdot & Hdotdot) Hslash] _].
  - split; [done|]. by intros [b ?].
  - simpl. destruct rest as [|seg' rest].
    + split; [done|]. intros [b ->]. exact (Hslash ".." b eq_refl).
    + split.
      * revert Hempty Hdot Hdotdot.
        destruct seg as [|? [|? [|? ?]]]; simpl; congruence.
      * intros [b Heq]. revert Heq Hempty Hdot Hdotdot Hslash.
        destruct seg as [|x [|y [|z seg]]]; simpl; try congruence.
        intros [= -> -> -> _] _ _ _ Hslash. exact (Hslash ".." seg eq_refl).
Qed.

Lemma entry_in_result `{UrlApi, PathApi} (wd : string)
    (snapshot : list V8ScriptCoverage) (out : list string)
    (r : V8ScriptCoverage) (p : string) :
  Documented.coveredFiles wd snapshot = Ok out ->
  r ∈ snapshot ->
  passes_filter r ->
  fileURLToPath (url r) = Ok p ->
  relative wd p ∈ out.
Proof.
  intros Hout (l1 & l2 & ->)%list_elem_of_split Hr%filter_true_iff Hp.
  apply coveredFiles_app in Hout as (o1 & o' & _ & Hout & ->).
  rewrite coveredFiles_cons_eq, Hr, Hp in Hout. simpl in Hout.
  destruct (Documented.coveredFiles wd l2) as [o2|]; [|done].
  injection Hout as <-. apply elem_of_app. right. apply list_elem_of_here.
Qed.

Section Inside.
Context `{UrlApi}.
Variable cwd : string.

(** X12.  With [path.relative] as on POSIX, the entry of a record that passes
    the filter and whose file path lies in the tree of [wd] is the part of
    the path below [wd]; it is not [..] and does not start with [../], so
    that entries of this form are those of the files outside the tree. *)
Theorem inside_file_is_below_wd (wd : string) (snapshot : list V8ScriptCoverage)
    (out : list string) (r : V8ScriptCoverage) (p : string) :
  @Documented.coveredFiles _ (Posix.pathApi cwd) wd snapshot = Ok out ->
  r ∈ snapshot ->
  passes_filter r ->
  fileURLToPath (url r) = Ok p ->
  inside_tree cwd wd p ->
  let e := Posix.relative cwd wd p in
  e ∈ out
  /\ (exists below,
        Posix.resolve_segments cwd p = Posix.resolve_segments cwd wd ++ below
        /\ e = join "/" below)
  /\ e <> ".."
  /\ startsWith e "../" = false.
Proof.
  intros Hout Hin Hr Hp [below Hbelow] e.
  split; [by apply (entry_in_result (H0 := Posix.pathApi cwd) wd snapshot out r)|].
  assert (e = join "/" below) as ->.
  { unfold e, Posix.relative. by rewrite Hbelow, strip_common_app. }
  split; [by exists below|].
  apply join_plain_not_climbing.
  pose proof (resolve_segments_plain cwd p) as Hplain.
  rewrite Hbelow in Hplain. by apply Forall_app in Hplain as [_ ?].
Qed.

End Inside.

Lemma inside_file_is_below_wd_witness :
  "test/fixtures/math.ts" ∈ repo_files
  /\ (exists below,
        Posix.resolve_segments "/repo" "/repo/test/fixtures/math.ts"
        = Posix.resolve_segments "/repo" "/repo" ++ below
        /\ "test/fixtures/math.ts" = join "/" below)
  /\ "test/fixtures/math.ts" <> ".."
  /\ startsWith "test/fixtures/math.ts" "../" = false.
Proof.
  apply (@inside_file_is_below_wd Posix.urlApi "/repo" "/repo" repo_snapshot
           repo_files (mkScript "6" "file:///repo/test/fixtures/math.ts" [])
           "/repo/test/fixtures/math.ts").
  - reflexivity.
  - do 5 apply list_elem_of_further. apply list_elem_of_here.
  - apply (@filter_true_iff Posix.urlApi). reflexivity.
  - reflexivity.
  - by exists [ "test"; "fixtures"; "math.ts" ].
Defined.
